(** * Shallow embedding of [asr.util.tf_contrib] and [asr.util.storage]

    The TensorFlow helpers are modelled at the level of the computation
    graph they build (TF1 graph mode): Python code appends nodes to the
    default graph, and running the graph on a fed input computes the
    tensors.  For [conv_layers] the tensors are tracked by their shapes,
    which is all the sequence-length and reshape logic depends on. *)

From Stdlib Require Import ZArith QArith Ascii String Bool Lia Lqa List.
Import ListNotations.
Open Scope Z_scope.

(** ** Python exceptions raised or propagated by the modelled code *)
Inductive exn : Type :=
  | ValueError
  | IndexError
  | TypeError
  | OSError (errno : Z)
  | RuntimeError (arg : string) (cause : exn)   (* [raise RuntimeError(arg) from cause] *)
  | OtherExn (name : string).

(** [except (OSError, ValueError)] in [delete_file_if_exists]. *)
Definition catches_os_or_value (e : exn) : bool :=
  match e with OSError _ | ValueError => true | _ => false end.

(** Python [seq[-1]]. *)
Definition py_last {A} (l : list A) : exn + A :=
  match rev l with [] => inl IndexError | x :: _ => inr x end.

Module TfContrib.

(** ** conv_layers *)

(** A node of the default graph; a tensor is referred to by the index of
    the node producing it. *)
Inductive node : Type :=
  | NInput                                          (* the fed spectrogram batch *)
  | NConv2D (x : nat) (filters : Z) (kernel_size : Z * Z) (strides : Z * Z)
      (* tf.layers.conv2d(padding='SAME', activation=relu) *)
  | NMinimum (x : nat)                              (* tf.minimum(x, FLAGS.relu_cutoff) *)
  | NDropout (x : nat) (training : bool)            (* tf.layers.dropout(x, rate, training) *)
  | NReshape (x : nat) (width : Z)                  (* tf.reshape(x, [tf.shape(x)[0], -1, width]) *)
  | NTileTime (x : nat).                            (* tf.tile([tf.shape(x)[1]], [tf.shape(x)[0]]) *)

Definition graph := list node.

(** Append a node; returns the new graph and the index of the node. *)
Definition add_node (g : graph) (n : node) : graph * nat :=
  (g ++ [n], length g).

(** Build-time checks of [tf.layers.conv2d] (TF1 layers): the kernel
    variable has shape [[kh; kw; in_channels; filters]], whose dimensions
    must be known and non-negative ([Dimension] refuses negative values,
    [Conv2D.build] refuses an unknown channel dimension), and
    [nn_ops.Convolution] refuses strides below 1.  [channels] is the static
    channel dimension of the layer's input: [Some c] when its static shape
    is [[_, _, _, c]], [None] when its rank or channel dimension is not known
    when the graph is built.  A refused layer raises [ValueError] before its
    conv node is added. *)
Definition conv2d_builds (channels : option Z) (filters : Z)
    (kernel_size strides : Z * Z) : bool :=
  match channels with
  | None => false
  | Some c =>
      let (kh, kw) := kernel_size in
      let (sh, sw) := strides in
      (0 <=? c) && (0 <=? filters) && (0 <=? kh) && (0 <=? kw)
      && (1 <=? sh) && (1 <=? sw)
  end.

(** [tf.layers.dropout(x, rate, training)] with a Python bool [training]:
    when training it builds [nn.dropout], which raises [ValueError] unless
    [0 <= rate < 1]; otherwise the layer is the identity and [rate] is not
    looked at. *)
Definition dropout_builds (rate : Q) (training : bool) : bool :=
  negb training || (Qle_bool 0 rate && negb (Qle_bool 1 rate)).

(** The body of the Python [for tmp in zip(filters, kernel_sizes, strides)]
    loop: each layer adds conv2d, minimum and dropout.  [channels] is the
    static channel dimension of [output] (the filter count after a conv
    layer); [rate] is [FLAGS.conv_dropout_rate].  A layer refused at build
    time stops the loop with [ValueError], the nodes built so far staying in
    the graph. *)
Fixpoint conv_loop (g : graph) (output : nat) (channels : option Z) (training : bool)
    (rate : Q) (layers : list (Z * (Z * Z) * (Z * Z))) : graph * (exn + nat) :=
  match layers with
  | [] => (g, inr output)
  | (_filter, kernel_size, stride) :: rest =>
      if negb (conv2d_builds channels _filter kernel_size stride) then (g, inl ValueError)
      else
      let (g1, o1) := add_node g (NConv2D output _filter kernel_size stride) in
      let (g2, o2) := add_node g1 (NMinimum o1) in
      if negb (dropout_builds rate training) then (g2, inl ValueError)
      else
      let (g3, o3) := add_node g2 (NDropout o2 training) in
      conv_loop g3 o3 (Some _filter) training rate rest
  end.

Fixpoint zip3 {A B C} (a : list A) (b : list B) (c : list C) : list (A * B * C) :=
  match a, b, c with
  | x :: a', y :: b', z :: c' => (x, y, z) :: zip3 a' b' c'
  | _, _, _ => []
  end.

(** [conv_layers(sequences, filters, kernel_sizes, strides, ..., training)]
    with [FLAGS.conv_dropout_rate = conv_dropout_rate]: [sequences] is the
    node [x] of the graph [g], with static channel dimension [channels].
    The batch and time dimensions of [sequences] are not static (a fed batch
    of utterances), so [tf.shape(output)[0]] is computed at run time and the
    reshape is checked when the graph runs.  Returns the graph after the
    call (nodes built before an exception stay in it) and either the raised
    exception or the pair of tensors [(output, seq_length)]. *)
Definition conv_layers (g : graph) (sequences : nat) (channels : option Z)
    (filters : list Z) (kernel_sizes : list (Z * Z)) (strides : list (Z * Z))
    (training : bool) (conv_dropout_rate : Q) : graph * (exn + (nat * nat)) :=
  if negb (Nat.eqb (length filters) (length kernel_sizes)
           && Nat.eqb (length kernel_sizes) (length strides))
  then (g, inl ValueError)
  else
    match conv_loop g sequences channels training conv_dropout_rate
            (zip3 filters kernel_sizes strides) with
    | (g1, inl e) => (g1, inl e)
    | (g1, inr output) =>
        match py_last filters with
        | inl e => (g1, inl e)
        | inr last_filter =>
            let (g2, output') := add_node g1 (NReshape output (10 * last_filter)) in
            let (g3, seq_length) := add_node g2 (NTileTime output') in
            (g3, inr (output', seq_length))
        end
    end.

(** Every layer of the loop passes the build-time checks, the static channel
    dimension of each layer's input being the previous layer's filters. *)
Fixpoint layers_build (channels : option Z) (training : bool) (rate : Q)
    (layers : list (Z * (Z * Z) * (Z * Z))) : bool :=
  match layers with
  | [] => true
  | (_filter, kernel_size, stride) :: rest =>
      conv2d_builds channels _filter kernel_size stride && dropout_builds rate training
      && layers_build (Some _filter) training rate rest
  end.

(** ** Running the graph: tensors tracked by their shape *)
Inductive value : Type :=
  | VShape (dims : list Z)        (* a float tensor of this shape *)
  | VInts (xs : list Z).          (* a 1-D int32 tensor with these entries *)

(** Output size of a 'SAME' convolution along one axis: ceil(n / s). *)
Definition same_out (n s : Z) : Z := (n + s - 1) / s.

Definition prod (l : list Z) : Z := fold_right Z.mul 1 l.

Definition eval_node (vals : list value) (feed : list Z) (n : node) : option value :=
  match n with
  | NInput => Some (VShape feed)
  | NConv2D x f _ (sh, sw) =>
      match nth_error vals x with
      | Some (VShape [b; t; fr; _]) =>
          if (0 <? sh) && (0 <? sw)
          then Some (VShape [b; same_out t sh; same_out fr sw; f]) else None
      | _ => None
      end
  | NMinimum x | NDropout x _ =>
      match nth_error vals x with
      | Some (VShape d) => Some (VShape d)
      | _ => None
      end
  | NReshape x w =>
      (* one -1 entry: the known sizes must have a positive product that
         divides the number of elements *)
      match nth_error vals x with
      | Some (VShape (b :: rest)) =>
          let total := b * prod rest in
          if (0 <? b) && (0 <? w) && (total mod (b * w) =? 0)
          then Some (VShape [b; total / (b * w); w]) else None
      | _ => None
      end
  | NTileTime x =>
      match nth_error vals x with
      | Some (VShape (b :: t :: _)) => Some (VInts (repeat t (Z.to_nat b)))
      | _ => None
      end
  end.

(** Values of all nodes, in order; [None] when some node fails at run time. *)
Fixpoint run_from (vals : list value) (feed : list Z) (g : graph) : option (list value) :=
  match g with
  | [] => Some vals
  | n :: g' =>
      match eval_node vals feed n with
      | Some v => run_from (vals ++ [v]) feed g'
      | None => None
      end
  end.

Definition run (g : graph) (feed : list Z) : option (list value) := run_from [] feed g.

(** The default configuration of [conv_layers] with [FLAGS.conv_filters = (32, 32, 96)]. *)
Definition default_filters : list Z := [32; 32; 96].
Definition default_kernel_sizes : list (Z * Z) := [(11, 41); (11, 21); (11, 21)].
Definition default_strides : list (Z * Z) := [(2, 2); (1, 2); (1, 2)].

(** A batch of spectrograms with true lengths [lens], padded to the longest. *)
Definition batch_shape (lens : list Z) (freq channels : Z) : list Z :=
  [Z.of_nat (length lens); fold_right Z.max 0 lens; freq; channels].

End TfContrib.

Module Cells.

(** ** bidirectional_cells and create_cell

    Probabilities are Python floats; they are modelled as rationals. *)
Open Scope Q_scope.

Inductive activation := Tanh.

(** [tf.nn.rnn_cell.BasicRNNCell(num_units, activation)]. *)
Record rnn_cell := { rc_num_units : Z; rc_activation : activation }.

(** [tf.nn.rnn_cell.DropoutWrapper(cell, input_keep_prob, output_keep_prob, seed)]. *)
Record dropout_wrapper := {
  dw_cell : rnn_cell;
  input_keep_prob : Q;
  output_keep_prob : Q;
  dw_seed : Z
}.

Definition Qltb (a b : Q) : bool := negb (Qle_bool b a).

(** Python [max(a, b)] and [min(a, b)]: the first argument unless the second
    is strictly larger (resp. smaller). *)
Definition py_max (a b : Q) : Q := if Qltb a b then b else a.
Definition py_min (a b : Q) : Q := if Qltb b a then b else a.

Section WithSeed.
(** [FLAGS.random_seed]. *)
Variable random_seed : Z.

Definition create_cell (num_units : Z) (keep_prob : Q) : dropout_wrapper :=
  {| dw_cell := {| rc_num_units := num_units; rc_activation := Tanh |};
     input_keep_prob := keep_prob;
     output_keep_prob := keep_prob;
     dw_seed := random_seed |}.

(** [bidirectional_cells(num_units, num_layers, dropout)]. *)
Definition bidirectional_cells (num_units num_layers : Z) (dropout : Q)
    : list dropout_wrapper * list dropout_wrapper :=
  let keep_prob := py_min 1 (py_max 0 (1 - dropout)) in
  let _fw_cells := map (fun _ => create_cell num_units keep_prob)
                       (seq 0 (Z.to_nat num_layers)) in
  let _bw_cells := map (fun _ => create_cell num_units keep_prob)
                       (seq 0 (Z.to_nat num_layers)) in
  (_fw_cells, _bw_cells).

(** The call [bidirectional_cells(num_units, num_layers)], with the default
    [dropout=1.0]. *)
Definition bidirectional_cells_default (num_units num_layers : Z) :=
  bidirectional_cells num_units num_layers 1.

End WithSeed.

(** The spec's [clamp(x, 0, 1)], for comparison with the code. *)
Definition clamp01 (x : Q) : Q :=
  if Qltb x 0 then 0 else if Qltb 1 x then 1 else x.

End Cells.

Module VarStore.

(** ** variable_on_cpu and variable_with_weight_decay *)
Open Scope Q_scope.

Inductive initializer := TruncatedNormal (stddev : Q).

Record variable := {
  var_name : string; var_shape : list Z; var_init : initializer; var_device : string
}.

(** Symbolic tensors built by [variable_with_weight_decay]. *)
Inductive texpr :=
  | TVar (name : string)            (* the variable's tensor *)
  | TL2Loss (x : texpr)             (* tf.nn.l2_loss(x) *)
  | TMul (x : texpr) (c : Q).       (* tf.multiply(x, c) *)

(** The default graph: its variables and its named collections. *)
Record tf_graph := {
  variables : list variable;
  collections : list (string * list texpr)
}.

Definition get_collection (key : string) (g : tf_graph) : list texpr :=
  match find (fun kv => String.eqb (fst kv) key) (collections g) with
  | Some (_, l) => l
  | None => []
  end.

Fixpoint append_to (key : string) (t : texpr) (cs : list (string * list texpr))
    : list (string * list texpr) :=
  match cs with
  | [] => [(key, [t])]
  | (k, l) :: rest =>
      if String.eqb k key then (k, l ++ [t]) :: rest else (k, l) :: append_to key t rest
  end.

(** [tf.add_to_collection(key, t)]. *)
Definition add_to_collection (key : string) (t : texpr) (g : tf_graph) : tf_graph :=
  {| variables := variables g; collections := append_to key t (collections g) |}.

(** [tf.get_variable(name, shape, initializer)] in a variable scope that
    does not reuse variables (the default [reuse=None] at the top level):
    an existing name raises [ValueError].  [name] is the full name, the
    enclosing scopes' prefix included; a call under [reuse=True] or
    [AUTO_REUSE], which would return the existing variable, is not
    modelled. *)
Definition get_variable (g : tf_graph) (name : string) (shape : list Z)
    (init : initializer) (device : string) : tf_graph * (exn + texpr) :=
  if existsb (fun v => String.eqb (var_name v) name) (variables g)
  then (g, inl ValueError)
  else ({| variables := variables g ++ [{| var_name := name; var_shape := shape;
                                           var_init := init; var_device := device |}];
           collections := collections g |}, inr (TVar name)).

Definition variable_on_cpu (g : tf_graph) (name : string) (shape : list Z)
    (init : initializer) : tf_graph * (exn + texpr) :=
  get_variable g name shape init "/cpu:0".

Definition variable_with_weight_decay (g : tf_graph) (name : string) (shape : list Z)
    (stddev : Q) (weight_decay : option Q) : tf_graph * (exn + texpr) :=
  let initializer := TruncatedNormal stddev in
  match variable_on_cpu g name shape initializer with
  | (g1, inl e) => (g1, inl e)
  | (g1, inr var) =>
      match weight_decay with
      | Some wd => (add_to_collection "losses" (TMul (TL2Loss var) wd) g1, inr var)
      | None => (g1, inr var)
      end
  end.

Definition sum_sq (xs : list Q) : Q := fold_right (fun x acc => x * x + acc) 0 xs.

(** Value of a symbolic tensor, given the values of the variables
    (flattened). *)
Fixpoint eval (env : string -> option (list Q)) (t : texpr) : option (list Q) :=
  match t with
  | TVar n => env n
  | TL2Loss x => option_map (fun xs => [sum_sq xs / 2]) (eval env x)
  | TMul x c => option_map (map (fun a => a * c)) (eval env x)
  end.

End VarStore.

Module Storage.
Local Open Scope string_scope.

(** ** asr.util.storage *)

(** *** Git provenance, through GitPython's [Repo] *)
Record repo := {
  head_branch : option string;          (* [None]: HEAD is detached *)
  repo_tags : list (string * Z)         (* tag name, commit's committed_datetime *)
}.

(** [repo.active_branch.name]: GitPython raises [TypeError] on a detached HEAD. *)
Definition active_branch_name (r : repo) : exn + string :=
  match head_branch r with Some b => inr b | None => inl TypeError end.

Definition git_branch (r : repo) : exn + string :=
  match active_branch_name r with
  | inr branch_name => inr branch_name
  | inl TypeError => inr "DETACHED HEAD"
  | inl e => inl e
  end.

(** Stable insertion by key, as Python's [sorted(..., key=...)]. *)
Fixpoint insert_by_key (x : string * Z) (l : list (string * Z)) : list (string * Z) :=
  match l with
  | [] => [x]
  | y :: l' => if (snd x <? snd y)%Z then x :: l else y :: insert_by_key x l'
  end.

Definition sorted_by_key (l : list (string * Z)) : list (string * Z) :=
  fold_left (fun acc x => insert_by_key x acc) l [].

Definition git_latest_tag (r : repo) : exn + string :=
  let tags := sorted_by_key (repo_tags r) in
  match py_last tags with
  | inl e => inl e
  | inr t => inr (fst t)
  end.

(** *** File system, with scripted failures of the deleting calls *)
Inductive kind := File | Dir.

Inductive event :=
  | ERemove (path : string)                  (* os.remove(path) *)
  | ERmtree (path : string)                  (* shutil.rmtree(path) *)
  | EWarnDelete (i : nat) (path : string)    (* print('WARN: Error deleting ({i}/5) file: {path}') *)
  | ESleep (seconds : Z).                    (* time.sleep(seconds) *)

(** The [os.remove] calls of a trace. *)
Definition is_remove (ev : event) : bool :=
  match ev with ERemove _ => true | _ => false end.

Record world := {
  fs : list (string * kind);
  faults : list (option exn);   (* outcome of the next deleting calls; [] = all succeed *)
  trace : list event
}.

Definition lookup (p : string) (w : world) : option kind :=
  option_map snd (find (fun e => String.eqb (fst e) p) (fs w)).

Definition os_path_exists (p : string) (w : world) : bool :=
  match lookup p w with Some _ => true | None => false end.
Definition os_path_isfile (p : string) (w : world) : bool :=
  match lookup p w with Some File => true | _ => false end.
Definition os_path_isdir (p : string) (w : world) : bool :=
  match lookup p w with Some Dir => true | _ => false end.

Definition log (e : event) (w : world) : world :=
  {| fs := fs w; faults := faults w; trace := trace w ++ [e] |}.

Definition next_fault (w : world) : option exn * world :=
  match faults w with
  | [] => (None, w)
  | f :: rest => (f, {| fs := fs w; faults := rest; trace := trace w |})
  end.

Definition set_fs (l : list (string * kind)) (w : world) : world :=
  {| fs := l; faults := faults w; trace := trace w |}.

Definition os_remove (p : string) (w : world) : world * (exn + unit) :=
  let (f, w1) := next_fault w in
  let w2 := log (ERemove p) w1 in
  match f with
  | Some e => (w2, inl e)
  | None => (set_fs (filter (fun e => negb (String.eqb (fst e) p)) (fs w2)) w2, inr tt)
  end.

(** [shutil.rmtree(p)]: removes [p] and every entry below it.  A scripted
    fault [Some e] stands for a failure before anything is removed (e.g. on
    the directory itself); a failure part-way through the tree, after some
    entries are gone, is not modelled. *)
Definition shutil_rmtree (p : string) (w : world) : world * (exn + unit) :=
  let (f, w1) := next_fault w in
  let w2 := log (ERmtree p) w1 in
  match f with
  | Some e => (w2, inl e)
  | None =>
      (set_fs (filter (fun e => negb (String.eqb (fst e) p
                                      || String.prefix (p ++ "/") (fst e))) (fs w2)) w2,
       inr tt)
  end.

(** The [for i in range(5)] retry loop of [delete_file_if_exists]. *)
Fixpoint delete_loop (path : string) (is : list nat) (w : world) : world * (exn + unit) :=
  match is with
  | [] => (w, inr tt)
  | i :: rest =>
      match os_remove path w with
      | (w1, inr _) => (w1, inr tt)                      (* break *)
      | (w1, inl exception) =>
          if catches_os_or_value exception then
            let w2 := log (EWarnDelete i path) w1 in
            if Nat.eqb i 4 then (w2, inl (RuntimeError path exception))
            else delete_loop path rest (log (ESleep 1) w2)
          else (w1, inl exception)
      end
  end.

Definition delete_file_if_exists (path : string) (w : world) : world * (exn + unit) :=
  if os_path_exists path w && os_path_isfile path w
  then delete_loop path (seq 0 5) w
  else (w, inr tt).

Definition is_oserror (e : exn) : bool :=
  match e with OSError _ => true | _ => false end.

Definition delete_directory_if_exists (path : string) (w : world) : world * (exn + unit) :=
  if os_path_exists path w && os_path_isdir path w
  then match shutil_rmtree path w with
       | (w1, inl exception) =>
           if is_oserror exception then (w1, inl exception)   (* except OSError: raise *)
           else (w1, inl exception)
       | (w1, inr _) => (w1, inr tt)
       end
  else (w, inr tt).

End Storage.

Module Optimizer.

(** ** AdamOptimizerLogger._apply_dense

    Tensor arithmetic is left abstract: the number type and its operations
    (float32 in TensorFlow) are a class, so every statement holds for any
    implementation of them, rounding included. *)
Class TensorNum (R : Type) := {
  nadd : R -> R -> R;
  nsub : R -> R -> R;
  nmul : R -> R -> R;
  ndiv : R -> R -> R;
  nsqrt : R -> R;          (* tf.sqrt *)
  npow : R -> R -> R;      (* ** *)
  none : R;                (* 1.0 *)
  nhalf : R                (* 0.5 *)
}.

Section Adam.
Context {R : Type} `{TensorNum R}.

(** Element-wise binary operation on tensors of equal shape. *)
Definition zip_with (f : R -> R -> R) (a b : list R) : list R :=
  map (fun p => f (fst p) (snd p)) (combine a b).

(** Scalar hyper-parameter tensors of the optimizer: [_lr_t],
    [_beta1_t], [_beta2_t], [_epsilon_t] and the beta accumulators. *)
Record hyper := {
  lr_t : R; beta1_t : R; beta2_t : R; epsilon_t : R;
  beta1_power : R; beta2_power : R
}.

Inductive summary := Histogram (name : string) (values : list R)
                   | Scalar (name : string) (x : R).

(** The variable, its slots ['m'] and ['v'], and the summaries emitted. *)
Record state := {
  st_var : list R; st_m : list R; st_v : list R; st_summaries : list summary
}.

(** [tf.train.AdamOptimizer._apply_dense] (the base class, framework code):
    TensorFlow's [ApplyAdam] kernel,
      lr  = lr_t * sqrt(1 - beta2_power) / (1 - beta1_power)
      m  += (g - m) * (1 - beta1)
      v  += (g * g - v) * (1 - beta2)
      var -= m * lr / (sqrt(v) + epsilon). *)
Definition adam_apply_dense (h : hyper) (grad : list R) (s : state) : state :=
  let lr := ndiv (nmul (lr_t h) (nsqrt (nsub none (beta2_power h))))
                 (nsub none (beta1_power h)) in
  let m' := zip_with (fun m g => nadd m (nmul (nsub g m) (nsub none (beta1_t h))))
                     (st_m s) grad in
  let v' := zip_with (fun v g => nadd v (nmul (nsub (nmul g g) v) (nsub none (beta2_t h))))
                     (st_v s) grad in
  let var' := map (fun p => let '(x, (m, v)) := p in
                              nsub x (ndiv (nmul m lr) (nadd (nsqrt v) (epsilon_t h))))
                  (combine (st_var s) (combine m' v')) in
  {| st_var := var'; st_m := m'; st_v := v'; st_summaries := st_summaries s |}.

(** [tf.summary.histogram] / [tf.summary.scalar]: append to the summaries. *)
Definition add_summary (x : summary) (s : state) : state :=
  {| st_var := st_var s; st_m := st_m s; st_v := st_v s;
     st_summaries := st_summaries s ++ [x] |}.

(** [AdamOptimizerLogger._apply_dense(grad, var)]. *)
Definition logger_apply_dense (h : hyper) (grad : list R) (s : state) : state :=
  let m := st_m s in
  let v := st_v s in
  let m_hat := map (fun x => ndiv x (nsub none (beta1_power h))) m in
  let v_hat := map (fun x => ndiv x (nsub none (beta2_power h))) v in
  let step := zip_with (fun a b => ndiv a (nadd (npow b nhalf) (epsilon_t h))) m_hat v_hat in
  let s1 := add_summary (Histogram "step" step) s in
  let current_lr := ndiv (nmul (lr_t h) (nsqrt (nsub none (beta2_power h))))
                         (nsub none (beta1_power h)) in
  let s2 := add_summary (Scalar "estimated_lr" current_lr) s1 in
  adam_apply_dense h grad s2.

End Adam.
End Optimizer.

Module Dense.
Import TfContrib.

(** ** dense_layers

    Shape-level, like [conv_layers]: [activation], [initializer] and
    [regularizer] do not change shapes and are not recorded. *)
Inductive dnode : Type :=
  | DInput                                   (* the fed [sequences] tensor *)
  | DDense (x : nat) (units : Z)             (* tf.layers.dense(x, units, ...) *)
  | DMinimum (x : nat)                       (* tf.minimum(x, FLAGS.relu_cutoff) *)
  | DDropout (x : nat) (training : bool).    (* tf.layers.dropout(x, rate, training) *)

Definition dgraph := list dnode.

Definition add_dnode (g : dgraph) (n : dnode) : dgraph * nat :=
  (g ++ [n], length g).

(** Build-time checks of [tf.layers.dense] (TF1 layers): the kernel variable
    has shape [[last_dim; units]], so the static last dimension of the input
    must be known ([Dense.build] refuses [None]) and both sizes must be
    non-negative ([Dimension] refuses negative values).  [last_dim] is
    [Some d] when the input's static shape has rank at least 2 and last
    dimension [d], [None] otherwise. *)
Definition dense_builds (last_dim : option Z) (units : Z) : bool :=
  match last_dim with
  | None => false
  | Some d => (0 <=? d) && (0 <=? units)
  end.

(** The body of [for _ in range(num_layers)], with [rate] the value of
    [FLAGS.dense_dropout_rate]; a layer refused at build time stops the loop
    with [ValueError] (see [dropout_builds] for the dropout). *)
Fixpoint dense_loop (g : dgraph) (output : nat) (last_dim : option Z) (training : bool)
    (units : Z) (rate : Q) (iters : list nat) : dgraph * (exn + nat) :=
  match iters with
  | [] => (g, inr output)
  | _ :: rest =>
      if negb (dense_builds last_dim units) then (g, inl ValueError)
      else
      let (g1, o1) := add_dnode g (DDense output units) in
      let (g2, o2) := add_dnode g1 (DMinimum o1) in
      if negb (dropout_builds rate training) then (g2, inl ValueError)
      else
      let (g3, o3) := add_dnode g2 (DDropout o2 training) in
      dense_loop g3 o3 (Some units) training units rate rest
  end.

(** [dense_layers(sequences, training, ..., num_layers)] with
    [FLAGS.num_units_dense = num_units_dense] and
    [FLAGS.dense_dropout_rate = dense_dropout_rate]; [sequences] has the
    static last dimension [last_dim].  Returns the graph and the raised
    exception or the output tensor. *)
Definition dense_layers (g : dgraph) (sequences : nat) (last_dim : option Z)
    (training : bool) (num_units_dense : Z) (dense_dropout_rate : Q) (num_layers : Z)
    : dgraph * (exn + nat) :=
  dense_loop g sequences last_dim training num_units_dense dense_dropout_rate
    (seq 0 (Z.to_nat num_layers)).

(** A dense layer maps the last axis to [units]; it needs rank >= 2. *)
Definition eval_dnode (vals : list value) (feed : list Z) (n : dnode) : option value :=
  match n with
  | DInput => Some (VShape feed)
  | DDense x u =>
      match nth_error vals x with
      | Some (VShape d) =>
          if (2 <=? length d)%nat then Some (VShape (removelast d ++ [u])) else None
      | _ => None
      end
  | DMinimum x | DDropout x _ =>
      match nth_error vals x with
      | Some (VShape d) => Some (VShape d)
      | _ => None
      end
  end.

Fixpoint drun_from (vals : list value) (feed : list Z) (g : dgraph) : option (list value) :=
  match g with
  | [] => Some vals
  | n :: g' =>
      match eval_dnode vals feed n with
      | Some v => drun_from (vals ++ [v]) feed g'
      | None => None
      end
  end.

Definition drun (g : dgraph) (feed : list Z) : option (list value) := drun_from [] feed g.

End Dense.

Module Gfile.
Import Storage.
Local Open Scope string_scope.

(** ** maybe_delete_checkpoints (through [tf.gfile]) *)
Inductive gevent :=
  | GPrint (msg : string)
  | GDeleteRecursively (path : string)
  | GMakeDirs (path : string).

Record gworld := {
  gfs : list (string * kind);
  gfaults : list (option exn);   (* outcome of the next mutating gfile calls *)
  gtrace : list gevent
}.

Definition glookup (p : string) (w : gworld) : option kind :=
  option_map snd (find (fun e => String.eqb (fst e) p) (gfs w)).

Definition glog (e : gevent) (w : gworld) : gworld :=
  {| gfs := gfs w; gfaults := gfaults w; gtrace := gtrace w ++ [e] |}.

Definition gnext_fault (w : gworld) : option exn * gworld :=
  match gfaults w with
  | [] => (None, w)
  | f :: rest => (f, {| gfs := gfs w; gfaults := rest; gtrace := gtrace w |})
  end.

Definition set_gfs (l : list (string * kind)) (w : gworld) : gworld :=
  {| gfs := l; gfaults := gfaults w; gtrace := gtrace w |}.

(** [p] itself or an entry below the directory [p]. *)
Definition under (p q : string) : bool :=
  String.eqb q p || String.prefix (p ++ "/") q.

(** [tf.gfile.Exists(path)]. *)
Definition gfile_exists (p : string) (w : gworld) : bool :=
  match glookup p w with Some _ => true | None => false end.

(** [tf.gfile.DeleteRecursively(path)]: removes [path] and everything below it. *)
Definition gfile_delete_recursively (p : string) (w : gworld) : gworld * (exn + unit) :=
  let (f, w1) := gnext_fault w in
  let w2 := glog (GDeleteRecursively p) w1 in
  match f with
  | Some e => (w2, inl e)
  | None => (set_gfs (filter (fun e => negb (under p (fst e))) (gfs w2)) w2, inr tt)
  end.

(** The proper ancestors of a path, one per ['/'] after a non-empty prefix. *)
Fixpoint ancestors_from (acc : string) (s : string) : list string :=
  match s with
  | EmptyString => []
  | String c rest =>
      let acc' := acc ++ String c EmptyString in
      if Ascii.eqb c "/"%char
      then (if String.eqb acc "" then [] else [acc]) ++ ancestors_from acc' rest
      else ancestors_from acc' rest
  end.

Definition dirs_to_make (p : string) : list string := ancestors_from "" p ++ [p].

(** [tf.gfile.MakeDirs(path)]: creates [path] and its missing ancestors as
    directories; an existing file on the way is an error. *)
Definition gfile_make_dirs (p : string) (w : gworld) : gworld * (exn + unit) :=
  let (f, w1) := gnext_fault w in
  let w2 := glog (GMakeDirs p) w1 in
  match f with
  | Some e => (w2, inl e)
  | None =>
      if existsb (fun d => match glookup d w2 with Some File => true | _ => false end)
                 (dirs_to_make p)
      then (w2, inl (OtherExn "FailedPreconditionError"))
      else (set_gfs (gfs w2 ++ map (fun d => (d, Dir))
                       (filter (fun d => match glookup d w2 with
                                         | None => true | Some _ => false end)
                               (nodup string_dec (dirs_to_make p)))) w2,
            inr tt)
  end.

Definition maybe_delete_checkpoints (path : string) (delete : bool) (w : gworld)
    : gworld * (exn + unit) :=
  if gfile_exists path w && delete then
    let w1 := glog (GPrint ("Deleting old checkpoint data from: " ++ path)) w in
    match gfile_delete_recursively path w1 with
    | (w2, inl e) => (w2, inl e)
    | (w2, inr _) => gfile_make_dirs path w2
    end
  else if gfile_exists path w && negb delete then
    (glog (GPrint ("Found old checkpoint data at: " ++ path)) w, inr tt)
  else
    let w1 := glog (GPrint ("Starting a new training run in: " ++ path)) w in
    gfile_make_dirs path w1.

End Gfile.

Module Md5.

(** ** md5(file_path)

    [hashlib.md5()] is an abstract hash object: an initial state, [update]
    and [hexdigest]; the file is its list of bytes. *)
Section Hash.
Context {H : Type} (md5_new : H) (md5_update : H -> list Byte.byte -> H)
        (md5_hexdigest : H -> string).

(** [file_handle.read(4096)] at the current position [rest]. *)
Definition read4096 (rest : list Byte.byte) : list Byte.byte * list Byte.byte :=
  (firstn 4096 rest, skipn 4096 rest).

(** [for chunk in iter(lambda: file_handle.read(4096), b'')]: the chunks
    read until the empty one.  Each non-empty read consumes at least one
    byte, so [fuel >= length rest] is enough. *)
Fixpoint chunks (fuel : nat) (rest : list Byte.byte) : list (list Byte.byte) :=
  match fuel with
  | O => []
  | S fuel' =>
      let (chunk, rest') := read4096 rest in
      match chunk with
      | [] => []
      | _ => chunk :: chunks fuel' rest'
      end
  end.

Definition md5 (content : list Byte.byte) : string :=
  let hash_md5 := fold_left md5_update (chunks (S (length content)) content) md5_new in
  md5_hexdigest hash_md5.

End Hash.
End Md5.

Module ParamsHelper.
Set Warnings "-register-all".
Local Open Scope string_scope.

(** ** python/util/params_helper.py (module-level loading of corpus.json) *)
Inductive json :=
  | JNull
  | JBool (b : bool)
  | JNum (q : Q)
  | JStr (s : string)
  | JArr (xs : list json)
  | JObj (kvs : list (string * json)).

Inductive load_error :=
  | CorpusNotFound            (* RuntimeError('corpus.json file not found.') *)
  | JSONDecodeError
  | KeyError (key : string)
  | TypeError_.               (* subscripting a JSON value that is not an object *)

(** [data[key]] on the result of [json.load]: a JSON object whose key
    occurs several times keeps its last binding. *)
Definition subscript (data : json) (key : string) : load_error + json :=
  match data with
  | JObj kvs =>
      match find (fun kv => String.eqb (fst kv) key) (rev kvs) with
      | Some (_, v) => inr v
      | None => inl (KeyError key)
      end
  | _ => inl TypeError_
  end.

(** The file [data/corpus.json]: [None] when it does not exist, [Some None]
    when it exists but is not valid JSON. *)
Definition load_params (corpus_json : option (option json))
    : load_error + (json * json * json * json) :=
  match corpus_json with
  | None => inl CorpusNotFound
  | Some None => inl JSONDecodeError
  | Some (Some data) =>
      match subscript data "train_size" with
      | inl e => inl e
      | inr train_size =>
          match subscript data "test_size" with
          | inl e => inl e
          | inr test_size =>
              match subscript data "dev_size" with
              | inl e => inl e
              | inr dev_size =>
                  match subscript data "boundaries" with
                  | inl e => inl e
                  | inr boundaries => inr (train_size, test_size, dev_size, boundaries)
                  end
              end
          end
      end
  end.

End ParamsHelper.

(** * Properties *)

Module ConvProofs.
Import TfContrib.

(** The layer loop and [conv_layers] with the build-time checks left out:
    a call that passes the checks builds this graph. *)
Fixpoint conv_loop_u (g : graph) (output : nat) (training : bool)
    (layers : list (Z * (Z * Z) * (Z * Z))) : graph * nat :=
  match layers with
  | [] => (g, output)
  | (_filter, kernel_size, stride) :: rest =>
      let (g1, o1) := add_node g (NConv2D output _filter kernel_size stride) in
      let (g2, o2) := add_node g1 (NMinimum o1) in
      let (g3, o3) := add_node g2 (NDropout o2 training) in
      conv_loop_u g3 o3 training rest
  end.

Definition conv_layers_u (g : graph) (sequences : nat) (filters : list Z)
    (kernel_sizes : list (Z * Z)) (strides : list (Z * Z)) (training : bool)
    : graph * (exn + (nat * nat)) :=
  if negb (Nat.eqb (length filters) (length kernel_sizes)
           && Nat.eqb (length kernel_sizes) (length strides))
  then (g, inl ValueError)
  else
    let (g1, output) := conv_loop_u g sequences training
                          (zip3 filters kernel_sizes strides) in
    match py_last filters with
    | inl e => (g1, inl e)
    | inr last_filter =>
        let (g2, output') := add_node g1 (NReshape output (10 * last_filter)) in
        let (g3, seq_length) := add_node g2 (NTileTime output') in
        (g3, inr (output', seq_length))
    end.

Definition is_tile (n : node) : bool :=
  match n with NTileTime _ => true | _ => false end.

Definition has_batch (b : Z) (v : value) : Prop := exists d, v = VShape (b :: d).

Lemma run_from_app vals feed g h :
  run_from vals feed (g ++ h) =
  match run_from vals feed g with Some v => run_from v feed h | None => None end.
Proof.
  revert vals; induction g as [|n g IH]; intros vals; simpl; [reflexivity|].
  destruct (eval_node vals feed n); [apply IH | reflexivity].
Qed.

Lemma run_from_length vals feed g vals' :
  run_from vals feed g = Some vals' -> length vals' = (length vals + length g)%nat.
Proof.
  revert vals; induction g as [|n g IH]; intros vals H; simpl in H.
  - injection H as <-; simpl; lia.
  - destruct (eval_node vals feed n) eqn:E; [|discriminate].
    apply IH in H; rewrite length_app in H; simpl in *; lia.
Qed.

Lemma conv_loop_extends g o tr layers :
  exists h, fst (conv_loop_u g o tr layers) = g ++ h /\ Forall (fun n => is_tile n = false) h.
Proof.
  revert g o; induction layers as [|[[f k] s] rest IH]; intros g o; simpl.
  - exists []; rewrite app_nil_r; auto.
  - destruct (IH (((g ++ [NConv2D o f k s]) ++ [NMinimum (length g)])
                   ++ [NDropout (length (g ++ [NConv2D o f k s])) tr])
                 (length ((g ++ [NConv2D o f k s]) ++ [NMinimum (length g)])))
      as [h [Hh Hf]].
    rewrite Hh. eexists; split.
    + rewrite <- !app_assoc; reflexivity.
    + repeat constructor; assumption.
Qed.

Lemma nth_error_batch b vals x v :
  Forall (has_batch b) vals -> nth_error vals x = Some v -> has_batch b v.
Proof.
  intros HF Hn. rewrite Forall_forall in HF. apply HF. eapply nth_error_In; eauto.
Qed.

Lemma eval_node_batch b d vals n v :
  Forall (has_batch b) vals -> is_tile n = false ->
  eval_node vals (b :: d) n = Some v -> has_batch b v.
Proof.
  intros HF Ht He; destruct n as [|x f k [sh sw]|x|x tr|x w|x]; simpl in He.
  - injection He as <-; eexists; reflexivity.
  - destruct (nth_error vals x) as [[dims|]|] eqn:E; try discriminate.
    destruct (nth_error_batch _ _ _ _ HF E) as [d' Hd]; injection Hd as Hd; subst dims.
    destruct d' as [|? [|? [|? [|]]]]; try discriminate.
    destruct ((0 <? sh) && (0 <? sw)); [|discriminate].
    injection He as <-; eexists; reflexivity.
  - destruct (nth_error vals x) as [[dims|]|] eqn:E; try discriminate.
    injection He as <-; eapply nth_error_batch; eauto.
  - destruct (nth_error vals x) as [[dims|]|] eqn:E; try discriminate.
    injection He as <-; eapply nth_error_batch; eauto.
  - destruct (nth_error vals x) as [[[|b' rest]|]|] eqn:E; try discriminate.
    destruct (nth_error_batch _ _ _ _ HF E) as [d' Hd]; injection Hd as <- _.
    destruct (_ && _); [|discriminate].
    injection He as <-; eexists; reflexivity.
  - discriminate.
Qed.

Lemma run_from_batch b d vals h vals' :
  Forall (has_batch b) vals -> Forall (fun n => is_tile n = false) h ->
  run_from vals (b :: d) h = Some vals' -> Forall (has_batch b) vals'.
Proof.
  revert vals; induction h as [|n h IH]; intros vals HF Ht Hr; simpl in Hr.
  - injection Hr as <-; exact HF.
  - inversion Ht; subst.
    destruct (eval_node vals (b :: d) n) eqn:E; [|discriminate].
    eapply IH; [|eassumption|eassumption].
    apply Forall_app; split; [assumption|].
    constructor; [eapply eval_node_batch; eauto|constructor].
Qed.

Lemma run_from_reshape_tile vals feed o w vals' :
  run_from vals feed [NReshape o w; NTileTime (length vals)] = Some vals' ->
  exists b rest t,
    nth_error vals o = Some (VShape (b :: rest)) /\
    vals' = vals ++ [VShape [b; t; w]; VInts (repeat t (Z.to_nat b))].
Proof.
  intros H; simpl in H.
  destruct (nth_error vals o) as [[[|b rest]|]|] eqn:E; try discriminate.
  destruct (_ && _); [|discriminate].
  rewrite nth_error_app2, Nat.sub_diag in H by lia; simpl in H.
  injection H as <-.
  exists b, rest, (b * prod rest / (b * w)); split; [reflexivity|].
  rewrite <- app_assoc; reflexivity.
Qed.

Lemma run_from_prefix vals feed g vals' :
  run_from vals feed g = Some vals' -> exists r, vals' = vals ++ r.
Proof.
  revert vals; induction g as [|n g IH]; intros vals H; simpl in H.
  - injection H as <-; exists []; rewrite app_nil_r; reflexivity.
  - destruct (eval_node vals feed n) as [v|]; [|discriminate].
    destruct (IH _ H) as [r ->]; exists (v :: r); rewrite <- app_assoc; reflexivity.
Qed.

(** The value of node [i] is what [eval_node] computes from the values of
    the nodes before it. *)
Lemma run_from_nth vals feed g vals' i n :
  run_from vals feed g = Some vals' -> nth_error g i = Some n ->
  nth_error vals' (length vals + i) =
  eval_node (firstn (length vals + i) vals') feed n.
Proof.
  revert vals i; induction g as [|m g IH]; intros vals i H Hi;
    [destruct i; discriminate|].
  simpl in H; destruct (eval_node vals feed m) as [v|] eqn:E; [|discriminate].
  destruct i as [|i]; simpl in Hi.
  - injection Hi as ->.
    destruct (run_from_prefix _ _ _ _ H) as [r ->].
    rewrite <- app_assoc, Nat.add_0_r, firstn_app, Nat.sub_diag, firstn_all; simpl.
    rewrite app_nil_r, nth_error_app2, Nat.sub_diag by lia; simpl; congruence.
  - specialize (IH _ i H Hi); rewrite length_app in IH; simpl in IH.
    replace (length vals + S i)%nat with (length vals + 1 + i)%nat by lia; exact IH.
Qed.

Lemma zip3_app {A B C} (a1 a2 : list A) (b1 b2 : list B) (c1 c2 : list C) :
  length a1 = length b1 -> length b1 = length c1 ->
  zip3 (a1 ++ a2) (b1 ++ b2) (c1 ++ c2) = zip3 a1 b1 c1 ++ zip3 a2 b2 c2.
Proof.
  revert b1 c1; induction a1 as [|x a1 IH]; intros [|y b1] [|z c1] Hab Hbc;
    simpl in *; try discriminate; try reflexivity.
  rewrite IH by lia; reflexivity.
Qed.

Lemma conv_loop_app g o tr l1 l2 :
  conv_loop_u g o tr (l1 ++ l2) =
  let (g1, o1) := conv_loop_u g o tr l1 in conv_loop_u g1 o1 tr l2.
Proof.
  revert g o; induction l1 as [|[[f k] s] l1 IH]; intros g o; simpl; [reflexivity|].
  apply IH.
Qed.

(** The last layer of the loop appends conv2d, minimum and dropout, and
    the loop's output is the dropout node. *)
Lemma conv_loop_last g o tr layers f k s g' o' :
  conv_loop_u g o tr (layers ++ [(f, k, s)]) = (g', o') ->
  exists g0 o0,
    g' = g0 ++ [NConv2D o0 f k s; NMinimum (length g0); NDropout (S (length g0)) tr] /\
    o' = S (S (length g0)).
Proof.
  rewrite conv_loop_app.
  destruct (conv_loop_u g o tr layers) as [g1 o1]; simpl; intros H.
  injection H as <- <-.
  exists g1, o1; rewrite <- !app_assoc, !length_app; simpl;
    rewrite Nat.add_1_r; split; [reflexivity | lia].
Qed.

Lemma run_node g feed vals i n :
  run g feed = Some vals -> nth_error g i = Some n ->
  exists v, nth_error vals i = Some v /\ eval_node (firstn i vals) feed n = Some v.
Proof.
  intros Hr Hi.
  pose proof (run_from_nth [] feed g vals i n Hr Hi) as E; simpl in E.
  apply run_from_length in Hr; simpl in Hr.
  assert (i < length g)%nat by (apply nth_error_Some; congruence).
  destruct (nth_error vals i) as [v|] eqn:V.
  - exists v; split; congruence.
  - apply nth_error_None in V; lia.
Qed.

Lemma py_last_app {A} (l : list A) x : py_last l = inr x -> exists l', l = l' ++ [x].
Proof.
  unfold py_last; destruct (rev l) as [|y r] eqn:E; [discriminate|].
  intros H; injection H as ->.
  exists (rev r); rewrite <- (rev_involutive l), E; reflexivity.
Qed.

(** Shape of the graph built by a successful call of [conv_layers_u]. *)
Lemma conv_layers_graph filters kernel_sizes strides tr g out sl :
  conv_layers_u [NInput] 0 filters kernel_sizes strides tr = (g, inr (out, sl)) ->
  exists lf k s g0 o0,
    py_last filters = inr lf /\
    g = g0 ++ [NConv2D o0 lf k s; NMinimum (length g0); NDropout (S (length g0)) tr;
               NReshape (S (S (length g0))) (10 * lf); NTileTime (length g0 + 3)] /\
    out = (length g0 + 3)%nat /\ sl = (length g0 + 4)%nat.
Proof.
  unfold conv_layers_u.
  destruct (Nat.eqb (length filters) (length kernel_sizes)) eqn:E1;
    [|discriminate].
  destruct (Nat.eqb (length kernel_sizes) (length strides)) eqn:E2;
    [|discriminate].
  apply Nat.eqb_eq in E1, E2; simpl negb; cbv iota.
  destruct (py_last filters) as [e|lf] eqn:Hl;
    [destruct (conv_loop_u _ _ _ _); discriminate|].
  destruct (py_last_app _ _ Hl) as [fs ->].
  rewrite length_app in E1; simpl in E1.
  destruct (exists_last (l := kernel_sizes)) as [ks [k ->]];
    [intros ->; simpl in E1; lia|].
  destruct (exists_last (l := strides)) as [ss [s ->]];
    [intros ->; rewrite length_app in E2; simpl in E2; lia|].
  rewrite ?length_app in E1; rewrite ?length_app in E2; simpl in E1, E2.
  rewrite zip3_app by lia; simpl zip3.
  destruct (conv_loop_u [NInput] 0 tr (zip3 fs ks ss ++ [(lf, k, s)])) as [g1 o1] eqn:El.
  apply conv_loop_last in El as (g0 & o0 & -> & ->).
  unfold add_node; intros H; injection H as <- <- <-.
  exists lf, k, s, g0, o0; rewrite <- !app_assoc, !length_app; simpl.
  repeat split; f_equal; f_equal; lia.
Qed.

Lemma eval_conv_shape vals feed x f k s v :
  eval_node vals feed (NConv2D x f k s) = Some v ->
  exists b t fr, v = VShape [b; t; fr; f].
Proof.
  destruct s as [sh sw]; simpl.
  destruct (nth_error vals x) as [[[|b [|t [|fr [|c [|]]]]]|]|]; try discriminate.
  destruct (_ && _); [|discriminate].
  intros H; injection H as <-; eauto.
Qed.

Lemma firstn_nth {A} (l : list A) i x :
  (x < i)%nat -> nth_error (firstn i l) x = nth_error l x.
Proof.
  intros H; rewrite nth_error_firstn; destruct (Nat.ltb_spec x i); [reflexivity|lia].
Qed.

Lemma nth_error_app_len {A} (l1 l2 : list A) j :
  nth_error (l1 ++ l2) (length l1 + j) = nth_error l2 j.
Proof.
  rewrite nth_error_app2 by lia; f_equal; lia.
Qed.



(** The checked loop either stops with an exception or builds what the
    unchecked loop builds; it succeeds exactly when every layer builds. *)
Lemma conv_loop_checked g o ch tr r layers :
  conv_loop g o ch tr r layers =
  if layers_build ch tr r layers then
    let (g', o') := conv_loop_u g o tr layers in (g', inr o')
  else (fst (conv_loop g o ch tr r layers), inl ValueError).
Proof.
  revert g o ch; induction layers as [|[[f k] s] rest IH]; intros g o ch;
    [reflexivity|].
  simpl; destruct (conv2d_builds ch f k s); simpl; [|reflexivity].
  destruct (dropout_builds r tr); simpl; [|reflexivity].
  apply IH.
Qed.

Lemma conv_layers_checked g x ch fs ks ss tr r g' p :
  conv_layers g x ch fs ks ss tr r = (g', inr p) ->
  conv_layers_u g x fs ks ss tr = (g', inr p).
Proof.
  unfold conv_layers, conv_layers_u.
  destruct (negb _); [discriminate|].
  rewrite conv_loop_checked.
  destruct (layers_build ch tr r (zip3 fs ks ss)); [|discriminate].
  destruct (conv_loop_u g x tr (zip3 fs ks ss)) as [g1 o]; exact (fun H => H).
Qed.

End ConvProofs.

Module ConvShapeProofs.
Import TfContrib ConvProofs.

Lemma run_app_prefix g h feed vals' :
  run (g ++ h) feed = Some vals' -> exists vals, run g feed = Some vals.
Proof.
  unfold run; rewrite run_from_app.
  destruct (run_from [] feed g) as [vals|]; [eauto|discriminate].
Qed.

(** One convolution layer: conv2d gives ['SAME'] sizes on both axes and
    the layer's filter count; minimum and dropout keep that shape. *)
Lemma conv_step g feed vals o b t f c fl k sh sw tr vals3 :
  run g feed = Some vals -> nth_error vals o = Some (VShape [b; t; f; c]) ->
  run (((g ++ [NConv2D o fl k (sh, sw)]) ++ [NMinimum (length g)])
         ++ [NDropout (length (g ++ [NConv2D o fl k (sh, sw)])) tr]) feed = Some vals3 ->
  let v := VShape [b; same_out t sh; same_out f sw; fl] in
  vals3 = vals ++ [v; v; v].
Proof.
  intros Hr Ho H3 v. unfold run in *.
  apply run_from_length in Hr as Hl; simpl in Hl.
  rewrite !run_from_app, Hr in H3; simpl in H3.
  rewrite Ho in H3.
  destruct ((0 <? sh) && (0 <? sw)); [|discriminate].
  rewrite nth_error_app2, <- Hl, Nat.sub_diag in H3 by lia; simpl in H3.
  rewrite nth_error_app2 in H3 by (rewrite length_app, length_app; simpl; lia).
  rewrite !length_app, <- Hl in H3; simpl in H3.
  replace (length vals + 1 - (length vals + 1))%nat with 0%nat in H3 by lia;
    simpl in H3.
  injection H3 as <-; rewrite <- !app_assoc; reflexivity.
Qed.

(** Through the whole loop, the time and frequency axes are reduced by the
    ['SAME'] formula with each layer's strides, and the channel axis is the
    last layer's filter count. *)
Lemma conv_loop_run feed tr layers : forall g o vals b t f c g' o' vals',
  run g feed = Some vals -> nth_error vals o = Some (VShape [b; t; f; c]) ->
  conv_loop_u g o tr layers = (g', o') -> run g' feed = Some vals' ->
  nth_error vals' o' =
    Some (VShape [b; fold_left same_out (map (fun l => fst (snd l)) layers) t;
                  fold_left same_out (map (fun l => snd (snd l)) layers) f;
                  fold_left (fun _ l => fst (fst l)) layers c]).
Proof.
  induction layers as [|[[fl k] [sh sw]] rest IH];
    intros g o vals b t f c g' o' vals' Hr Ho Hl Hr'.
  - simpl in Hl; injection Hl as <- <-; rewrite Hr in Hr'; injection Hr' as <-.
    exact Ho.
  - simpl in Hl; unfold add_node in Hl.
    set (g3 := ((g ++ [NConv2D o fl k (sh, sw)]) ++ [NMinimum (length g)])
                 ++ [NDropout (length (g ++ [NConv2D o fl k (sh, sw)])) tr]) in Hl.
    destruct (conv_loop_extends g3 (length ((g ++ [NConv2D o fl k (sh, sw)])
                                     ++ [NMinimum (length g)])) tr rest) as [h [Hg _]].
    rewrite Hl in Hg; simpl in Hg; subst g'.
    destruct (run_app_prefix _ _ _ _ Hr') as [vals3 H3].
    pose proof (conv_step _ _ _ _ _ _ _ _ _ _ _ _ _ _ Hr Ho H3) as E; simpl in E.
    apply run_from_length in Hr as Hlen; simpl in Hlen.
    apply (IH g3 (length ((g ++ [NConv2D o fl k (sh, sw)]) ++ [NMinimum (length g)]))
             vals3 b (same_out t sh) (same_out f sw) fl (g3 ++ h) o' vals' H3);
      [|exact Hl|exact Hr'].
    rewrite E, nth_error_app2 by (rewrite !length_app; simpl; lia).
    rewrite !length_app, Hlen; simpl.
    replace (length g + 1 + 1 - length g)%nat with 2%nat by lia; reflexivity.
Qed.

Lemma map_snd_zip3 {A B C} (a : list A) (b : list B) (c : list C) :
  length a = length b -> length b = length c ->
  map (fun l => snd l) (zip3 a b c) = c.
Proof.
  revert b c; induction a as [|x a IH]; intros [|y b] [|z c] H1 H2;
    simpl in *; try discriminate; try reflexivity.
  rewrite IH by lia; reflexivity.
Qed.

Lemma fold_last_zip3 {B C} (a : list Z) (b : list B) (c : list C) x lf :
  length a = length b -> length b = length c -> py_last a = inr lf ->
  fold_left (fun _ l => fst (fst l)) (zip3 a b c) x = lf.
Proof.
  intros H1 H2 Hl; destruct (py_last_app _ _ Hl) as [a' ->].
  rewrite length_app in H1; simpl in H1.
  destruct (exists_last (l := b)) as [b' [y ->]]; [intros ->; simpl in H1; lia|].
  destruct (exists_last (l := c)) as [c' [z ->]];
    [intros ->; rewrite length_app in H2; simpl in H2; lia|].
  rewrite ?length_app in H1; rewrite ?length_app in H2; simpl in H1, H2.
  rewrite zip3_app by lia; rewrite fold_left_app; reflexivity.
Qed.

(** The tensor fed to the final reshape of a successful [conv_layers_u]. *)
Lemma conv_pre_reshape filters kernel_sizes strides training b t f c g out sl vals :
  conv_layers_u [NInput] 0 filters kernel_sizes strides training = (g, inr (out, sl)) ->
  run g [b; t; f; c] = Some vals ->
  exists lf o,
    py_last filters = inr lf /\
    nth_error g out = Some (NReshape o (10 * lf)) /\
    nth_error vals o =
      Some (VShape [b; fold_left same_out (map fst strides) t;
                    fold_left same_out (map snd strides) f; lf]).
Proof.
  intros Hc Hr. unfold conv_layers_u in Hc.
  destruct (Nat.eqb_spec (length filters) (length kernel_sizes)) as [E1|];
    [|discriminate].
  destruct (Nat.eqb_spec (length kernel_sizes) (length strides)) as [E2|];
    [|discriminate].
  simpl negb in Hc; cbv iota in Hc.
  destruct (conv_loop_u [NInput] 0 training (zip3 filters kernel_sizes strides))
    as [g1 o] eqn:El.
  destruct (py_last filters) as [e|lf] eqn:Hl; [discriminate|].
  unfold add_node in Hc; injection Hc as <- <- <-.
  rewrite <- app_assoc in Hr.
  destruct (run_app_prefix _ _ _ _ Hr) as [vals1 R1].
  assert (Hv : nth_error vals1 o =
    Some (VShape [b; fold_left same_out (map fst strides) t;
                  fold_left same_out (map snd strides) f; lf])).
  { rewrite (conv_loop_run _ _ _ [NInput] 0 [VShape [b; t; f; c]] b t f c g1 o vals1
               eq_refl eq_refl El R1).
    rewrite <- (map_map snd fst), <- (map_map snd snd), map_snd_zip3 by lia.
    rewrite (fold_last_zip3 filters kernel_sizes strides c lf) by assumption.
    reflexivity. }
  exists lf, o; split; [reflexivity|split].
  - rewrite <- app_assoc, nth_error_app2, Nat.sub_diag by lia; reflexivity.
  - unfold run in Hr, R1; rewrite run_from_app, R1 in Hr.
    destruct (run_from_prefix _ _ _ _ Hr) as [r ->].
    rewrite nth_error_app1; [exact Hv|].
    apply nth_error_Some; congruence.
Qed.

End ConvShapeProofs.
Import ConvShapeProofs.

Module ConvOutProofs.
Import TfContrib ConvProofs ConvShapeProofs.

(** The reshape and the tiled lengths of a successful run, in terms of the
    reduced time and frequency sizes. *)
Lemma conv_run_out filters kernel_sizes strides training b t f c g out sl vals :
  conv_layers_u [NInput] 0 filters kernel_sizes strides training = (g, inr (out, sl)) ->
  run g [b; t; f; c] = Some vals ->
  exists lf T F,
    py_last filters = inr lf /\
    T = fold_left same_out (map fst strides) t /\
    F = fold_left same_out (map snd strides) f /\
    0 < b /\ 0 < lf /\ (T * F) mod 10 = 0 /\
    nth_error vals out = Some (VShape [b; T * F / 10; 10 * lf]) /\
    nth_error vals sl = Some (VInts (repeat (T * F / 10) (Z.to_nat b))).
Proof.
  intros Hc Hr.
  destruct (conv_pre_reshape _ _ _ _ _ _ _ _ _ _ _ _ Hc Hr) as (lf & o & Hl & Ho & Hv).
  destruct (conv_layers_graph _ _ _ _ _ _ _ Hc) as (lf' & k & s & g0 & o0 & Hl' & Hg & -> & ->).
  rewrite Hl in Hl'; injection Hl' as <-; subst g.
  remember (fold_left same_out (map fst strides) t) as T eqn:HT.
  remember (fold_left same_out (map snd strides) f) as F eqn:HF.
  assert (Hn3 : nth_error (g0 ++ [NConv2D o0 lf k s; NMinimum (length g0);
                  NDropout (S (length g0)) training;
                  NReshape (S (S (length g0))) (10 * lf); NTileTime (length g0 + 3)])
                  (length g0 + 3) = Some (NReshape (S (S (length g0))) (10 * lf))).
  { rewrite nth_error_app2 by lia.
    replace (length g0 + 3 - length g0)%nat with 3%nat by lia; reflexivity. }
  rewrite Hn3 in Ho; injection Ho as <-.
  destruct (run_node _ _ _ _ _ Hr Hn3) as [v [Hv3 Ev]].
  unfold eval_node in Ev; rewrite firstn_nth, Hv in Ev by lia.
  unfold prod in Ev; simpl fold_right in Ev.
  replace (b * (T * (F * (lf * 1)))) with ((T * F) * (b * lf)) in Ev by ring.
  replace (b * (10 * lf)) with (10 * (b * lf)) in Ev by ring.
  destruct ((0 <? b) && (0 <? 10 * lf) && ((T * F) * (b * lf) mod (10 * (b * lf)) =? 0))
    eqn:Ec; [|discriminate].
  apply andb_prop in Ec as [Ec E3]; apply andb_prop in Ec as [E1 E2].
  apply Z.ltb_lt in E1, E2; apply Z.eqb_eq in E3.
  assert (Hbl : b * lf <> 0) by nia.
  rewrite Z.mul_mod_distr_r in E3 by lia.
  apply Z.mul_eq_0 in E3 as [E3|E3]; [|contradiction].
  rewrite Z.div_mul_cancel_r in Ev by lia.
  injection Ev as <-.
  assert (Hn4 : nth_error (g0 ++ [NConv2D o0 lf k s; NMinimum (length g0);
                  NDropout (S (length g0)) training;
                  NReshape (S (S (length g0))) (10 * lf); NTileTime (length g0 + 3)])
                  (length g0 + 4) = Some (NTileTime (length g0 + 3))).
  { rewrite nth_error_app2 by lia.
    replace (length g0 + 4 - length g0)%nat with 4%nat by lia; reflexivity. }
  destruct (run_node _ _ _ _ _ Hr Hn4) as [v [Hv4 Ev]].
  unfold eval_node in Ev; rewrite firstn_nth, Hv3 in Ev by lia.
  injection Ev as <-.
  exists lf, T, F; repeat split; try assumption; lia.
Qed.

End ConvOutProofs.
Import ConvOutProofs.

Import TfContrib ConvProofs.

(** C1: the sequence-length vector returned by [conv_layers] has one entry
    per batch element, all of them equal to the time-axis size (axis 1) of
    the reshaped output; the true lengths [lens] of the examples play no
    part beyond the padded batch shape. *)
Theorem conv_layers_seq_length_broadcast ch filters kernel_sizes strides training rate
    lens freq channels g out seq_length vals
    (Hc : conv_layers [NInput] 0 ch filters kernel_sizes strides training rate
          = (g, inr (out, seq_length)))
    (Hr : run g (batch_shape lens freq channels) = Some vals) :
  exists t w,
    nth_error vals out = Some (VShape [Z.of_nat (length lens); t; w]) /\
    nth_error vals seq_length = Some (VInts (repeat t (length lens))).
Proof.
  apply conv_layers_checked in Hc; unfold conv_layers_u in Hc.
  destruct (negb _); [discriminate|].
  destruct (conv_loop_u [NInput] 0 training (zip3 filters kernel_sizes strides))
    as [g1 o] eqn:El.
  destruct (py_last filters) as [e|lf]; [discriminate|].
  unfold add_node in Hc; injection Hc as <- <- <-.
  destruct (conv_loop_extends [NInput] 0 training (zip3 filters kernel_sizes strides))
    as [h [Hg1 Hh]].
  rewrite El in Hg1; simpl in Hg1; subst g1.
  unfold run, batch_shape in *.
  set (b := Z.of_nat (length lens)) in *.
  set (d := [fold_right Z.max 0 lens; freq; channels]) in *.
  rewrite <- app_assoc, run_from_app in Hr.
  destruct (run_from [] (b :: d) (NInput :: h)) as [vals1|] eqn:R1; [|discriminate].
  assert (HB : Forall (has_batch b) vals1).
  { eapply run_from_batch; [constructor| |exact R1].
    constructor; [reflexivity|exact Hh]. }
  apply run_from_length in R1 as L1; simpl in L1.
  rewrite length_app; simpl app.
  replace (length (NInput :: h)) with (length vals1) in * by (simpl; lia).
  apply run_from_reshape_tile in Hr as (b' & rest & t & E & ->).
  destruct (nth_error_batch _ _ _ _ HB E) as [d' Hd]; injection Hd as Hb' _; subst b'.
  exists t, (10 * lf); split.
  - rewrite nth_error_app2, Nat.sub_diag by lia; reflexivity.
  - rewrite nth_error_app2 by (simpl; lia).
    simpl length; rewrite Nat.add_comm, Nat.add_sub.
    simpl; unfold b; rewrite Nat2Z.id; reflexivity.
Qed.

(** C4 (amended): the reshape at the end of [conv_layers] always gives the
    final axis the width [10 * filters[-1]] (the constant 10 is hard-coded),
    with [filters[-1] > 0] in every successful run.  For an input
    [[B; T; F; C]], the tensor it reshapes is [[B; T'; F'; filters[-1]]], where
    [T'] and [F'] are [T] and [F] reduced layer by layer with the ['SAME']
    size [ceil(n / s)] for the layer's strides; it keeps the batch axis and
    folds the rest into the time axis, giving [[B; T' * F' / 10; 10 * filters[-1]]],
    and the run only succeeds when [T' * F'] is a multiple of 10.  So the
    final axis is [F' * filters[-1]] exactly when [F' = 10].  With the
    default configuration and [F = 40], [F' = 5]: the output is
    [[B; T' / 2; 960]], its final axis [10 * 96] but its time axis half of [T']. *)
Theorem conv_layers_reshape_width ch filters kernel_sizes strides training rate
    b t f c g out seq_length vals
    (Hc : conv_layers [NInput] 0 ch filters kernel_sizes strides training rate
          = (g, inr (out, seq_length)))
    (Hr : run g [b; t; f; c] = Some vals) :
  exists lf o T F,
    py_last filters = inr lf /\ 0 < lf /\ 0 < b /\
    T = fold_left same_out (map fst strides) t /\
    F = fold_left same_out (map snd strides) f /\
    nth_error g out = Some (NReshape o (10 * lf)) /\
    nth_error vals o = Some (VShape [b; T; F; lf]) /\
    (T * F) mod 10 = 0 /\
    nth_error vals out = Some (VShape [b; T * F / 10; 10 * lf]) /\
    (10 * lf = F * lf <-> F = 10) /\
    (filters = default_filters -> strides = default_strides -> f = 40 ->
       lf = 96 /\ F = 5 /\ T mod 2 = 0 /\
       nth_error vals out = Some (VShape [b; T / 2; 960])).
Proof.
  apply conv_layers_checked in Hc.
  destruct (conv_pre_reshape _ _ _ _ _ _ _ _ _ _ _ _ Hc Hr) as (lf & o & Hl & Ho & Hv).
  destruct (conv_run_out _ _ _ _ _ _ _ _ _ _ _ _ Hc Hr)
    as (lf' & T & F & Hl' & HT & HF & Hb & Hlf & Hm & Hout & _).
  rewrite Hl in Hl'; injection Hl' as <-.
  rewrite <- HT, <- HF in Hv.
  exists lf, o, T, F; do 9 (split; [assumption|]).
  split.
  - split; intros H; [|rewrite H; ring]. nia.
  - intros Hfs Hss Hf; subst filters strides f.
    injection Hl as <-.
    assert (HF5 : F = 5) by (subst F; reflexivity).
    rewrite HF5 in Hm, Hout.
    split; [reflexivity|split; [exact HF5|]].
    replace (T * 5 / 10) with (T / 2) in Hout
      by (rewrite <- (Z.div_mul_cancel_l T 2 5) by lia; f_equal; ring).
    replace (T * 5) with (5 * T) in Hm by ring.
    change 10 with (5 * 2) in Hm; rewrite Z.mul_mod_distr_l in Hm by lia.
    split; [lia|exact Hout].
Qed.



(** C4 counterexample: default configuration on a [[1; 4; 40; 1]] input.
    The last dropout has shape [[1; 2; 5; 96]] (5 frequencies left), but the
    reshaped output is [[1; 1; 960]]: its final axis is not [5 * 96]. *)
Lemma conv_layers_width_not_freq_times_filters :
  let (g, r) := conv_layers [NInput] 0 (Some 1) default_filters default_kernel_sizes
                  default_strides true (1 # 10)%Q in
  r = inr (10%nat, 11%nat) /\
  exists vals,
    run g [1; 4; 40; 1] = Some vals /\
    nth_error g 10 = Some (NReshape 9 960) /\
    nth_error vals 9 = Some (VShape [1; 2; 5; 96]) /\
    nth_error vals 10 = Some (VShape [1; 1; 960]) /\
    960 <> 5 * 96.
Proof.
  vm_compute; split; [reflexivity|].
  eexists; split; [reflexivity|]; repeat split; discriminate.
Qed.

Import Optimizer.

(** C2: the instrumented step [AdamOptimizerLogger._apply_dense] updates the
    variable and both slots exactly as the base [AdamOptimizer._apply_dense]
    does, for any gradient, state and number implementation; the only
    difference is the two summaries it appends. *)
Theorem logger_apply_dense_same_update {R : Type} `{TensorNum R}
    (h : hyper) (grad : list R) (s : state) :
  let s' := logger_apply_dense h grad s in
  let s0 := adam_apply_dense h grad s in
  st_var s' = st_var s0 /\ st_m s' = st_m s0 /\ st_v s' = st_v s0 /\
  exists step current_lr,
    st_summaries s' = st_summaries s0 ++
                      [Histogram "step" step; Scalar "estimated_lr" current_lr].
Proof.
  cbv zeta; unfold logger_apply_dense, adam_apply_dense, add_summary; simpl.
  repeat split.
  do 2 eexists; rewrite <- app_assoc; reflexivity.
Qed.

Module CellProofs.
Import Cells.
Local Open Scope Q_scope.

Lemma Qle_bool_false a b : Qle_bool a b = false -> b < a.
Proof.
  intros H; apply Qnot_le_lt; intros H'; apply Qle_bool_iff in H'; congruence.
Qed.

(** The code's [min(1.0, max(0.0, x))] is the clamp of [x] to [[0, 1]]. *)
Lemma py_min_max_clamp x : py_min 1 (py_max 0 x) == clamp01 x.
Proof.
  unfold py_min, py_max, clamp01, Qltb.
  destruct (Qle_bool x 0) eqn:H1; simpl.
  - apply Qle_bool_iff in H1.
    destruct (Qle_bool 1 0) eqn:H2; [discriminate|]; simpl.
    destruct (Qle_bool 0 x) eqn:H3; simpl.
    + apply Qle_bool_iff in H3.
      destruct (Qle_bool x 1) eqn:H4; simpl; [lra|].
      apply Qle_bool_false in H4; lra.
    + reflexivity.
  - apply Qle_bool_false in H1.
    destruct (Qle_bool 0 x) eqn:H3; simpl;
      [|apply Qle_bool_false in H3; lra].
    destruct (Qle_bool 1 x) eqn:H2; destruct (Qle_bool x 1) eqn:H4; simpl;
      try reflexivity.
    + apply Qle_bool_iff in H2; apply Qle_bool_iff in H4; lra.
    + apply Qle_bool_false in H2; apply Qle_bool_false in H4; lra.
Qed.

Lemma map_const_Forall {A B} (f : A -> B) (P : B -> Prop) l :
  (forall a, P (f a)) -> Forall P (map f l).
Proof.
  intros H; induction l as [|a l IH]; simpl; constructor; auto.
Qed.

End CellProofs.
Import Cells CellProofs.

(** C5: both cell lists have [num_layers] entries (for [num_layers >= 0]);
    every forward and backward cell is a [BasicRNNCell(num_units, tanh)]
    wrapped with input and output keep-probability [clamp(1 - dropout, 0, 1)];
    [dropout = 0] gives keep-probability 1 and [dropout = 1] gives 0. *)
Theorem bidirectional_cells_keep_prob random_seed num_units num_layers dropout :
  let (fw, bw) := bidirectional_cells random_seed num_units num_layers dropout in
  length fw = Z.to_nat num_layers /\ length bw = Z.to_nat num_layers /\
  Forall (fun c =>
            input_keep_prob c == clamp01 (1 - dropout) /\
            output_keep_prob c == clamp01 (1 - dropout) /\
            dw_cell c = {| rc_num_units := num_units; rc_activation := Tanh |} /\
            dw_seed c = random_seed) (fw ++ bw) /\
  Forall (fun c => input_keep_prob c == 1 /\ output_keep_prob c == 1)
    (fst (bidirectional_cells random_seed num_units num_layers 0) ++
     snd (bidirectional_cells random_seed num_units num_layers 0)) /\
  Forall (fun c => input_keep_prob c == 0 /\ output_keep_prob c == 0)
    (fst (bidirectional_cells random_seed num_units num_layers 1) ++
     snd (bidirectional_cells random_seed num_units num_layers 1)).
Proof.
  unfold bidirectional_cells; simpl fst; simpl snd.
  rewrite !length_map, !length_seq.
  repeat split; try reflexivity; rewrite <- map_app;
    apply map_const_Forall; intros _; simpl;
    try (rewrite py_min_max_clamp); repeat split; reflexivity.
Qed.

(** C10: with the default [dropout=1.0], every forward and backward cell is
    wrapped with input and output keep-probability 0. *)
Theorem bidirectional_cells_default_keep_prob_zero random_seed num_units num_layers :
  let (fw, bw) := bidirectional_cells_default random_seed num_units num_layers in
  Forall (fun c => input_keep_prob c == 0 /\ output_keep_prob c == 0) (fw ++ bw).
Proof.
  unfold bidirectional_cells_default, bidirectional_cells.
  rewrite <- map_app; apply map_const_Forall; intros _; split; reflexivity.
Qed.

Module VarProofs.
Import VarStore.

Lemma get_collection_add key t g :
  get_collection key (add_to_collection key t g) = get_collection key g ++ [t].
Proof.
  unfold get_collection, add_to_collection; simpl.
  induction (collections g) as [|[k l] rest IH]; simpl.
  - rewrite String.eqb_refl; reflexivity.
  - destruct (String.eqb k key) eqn:E; simpl; rewrite E; [reflexivity|exact IH].
Qed.

End VarProofs.
Import VarStore VarProofs.

(** C7: a successful [variable_with_weight_decay] returns the variable's
    tensor and registers the same CPU variable whatever [weight_decay] is;
    with [weight_decay = Some wd] it appends to the ['losses'] collection
    one term whose value is [wd * (sum of squared entries) / 2]; with
    [None] the ['losses'] collection is unchanged. *)
Theorem variable_with_weight_decay_losses g name shape stddev weight_decay g' var
    (H : variable_with_weight_decay g name shape stddev weight_decay = (g', inr var)) :
  var = TVar name /\
  variables g' = variables g ++
    [{| var_name := name; var_shape := shape; var_init := TruncatedNormal stddev;
        var_device := "/cpu:0" |}] /\
  match weight_decay with
  | None => get_collection "losses" g' = get_collection "losses" g
  | Some wd =>
      exists t,
        get_collection "losses" g' = get_collection "losses" g ++ [t] /\
        forall env xs, env name = Some xs ->
          exists r, eval env t = Some [r] /\ (r == wd * sum_sq xs / 2)%Q
  end.
Proof.
  unfold variable_with_weight_decay, variable_on_cpu, get_variable in H.
  destruct (existsb _ _); [discriminate|].
  destruct weight_decay as [wd|]; injection H as <- <-.
  - repeat split.
    exists (TMul (TL2Loss (TVar name)) wd); split.
    + rewrite get_collection_add; reflexivity.
    + intros env xs Hx; simpl; rewrite Hx; simpl.
      eexists; split; [reflexivity|]. unfold Qdiv; ring.
  - repeat split.
Qed.

(** C7 witness: a fresh variable ["w"] with weight decay 1/10. *)
Lemma variable_with_weight_decay_losses_witness :
  let g0 := {| variables := []; collections := [] |} in
  let call := variable_with_weight_decay g0 "w" [2%Z] 1 (Some (1 # 10)) in
  call = (fst call, inr (TVar "w")) /\
  (TVar "w" = TVar "w" /\
   variables (fst call) = variables g0 ++
     [{| var_name := "w"; var_shape := [2%Z]; var_init := TruncatedNormal 1;
         var_device := "/cpu:0" |}] /\
   exists t,
     get_collection "losses" (fst call) = get_collection "losses" g0 ++ [t] /\
     forall env xs, env "w"%string = Some xs ->
       exists r, eval env t = Some [r] /\ (r == (1 # 10) * sum_sq xs / 2)%Q).
Proof.
  intros g0 call.
  assert (Hc : call = (fst call, inr (TVar "w"))) by reflexivity.
  split; [exact Hc|].
  exact (variable_with_weight_decay_losses g0 "w" [2%Z] 1 (Some (1 # 10))
           (fst call) (TVar "w") Hc).
Defined.

Module StorageProofs.
Import Storage.
Local Open Scope string_scope.

Lemma os_remove_ok p w w1 u : os_remove p w = (w1, inr u) -> lookup p w1 = None.
Proof.
  unfold os_remove, next_fault.
  destruct (faults w) as [|[e|] rest]; simpl; intros H; try discriminate;
    injection H as <- _; unfold lookup; simpl;
    induction (fs w) as [|[q k] l IH]; simpl; try reflexivity;
    destruct (String.eqb q p) eqn:E; simpl; try exact IH; rewrite E; exact IH.
Qed.

Lemma delete_loop_removes p is w w1 :
  In 4%nat is -> delete_loop p is w = (w1, inr tt) -> lookup p w1 = None.
Proof.
  revert w; induction is as [|i rest IH]; intros w Hin H; [destruct Hin|].
  simpl in H; destruct (os_remove p w) as [w0 [e|u]] eqn:R.
  - destruct (catches_os_or_value e); [|discriminate].
    destruct (Nat.eqb_spec i 4); [discriminate|].
    destruct Hin as [->|Hin]; [contradiction|].
    exact (IH _ Hin H).
  - injection H as <-; exact (os_remove_ok _ _ _ _ R).
Qed.

End StorageProofs.
Import Storage StorageProofs.

(** C6 (code bug): [git_branch] on a detached HEAD returns the sentinel
    ["DETACHED HEAD"], but [git_latest_tag] on a repository with no tags
    raises [IndexError] from [tags[-1]] instead of returning a sentinel. *)
Theorem git_latest_tag_no_tags_raises branch :
  git_branch {| head_branch := None; repo_tags := [] |} = inr "DETACHED HEAD"%string /\
  git_latest_tag {| head_branch := branch; repo_tags := [] |} = inl IndexError.
Proof. split; reflexivity. Qed.

(** C8: an existing file whose removal fails five times (with [OSError] or
    [ValueError]) is attempted exactly five times, with a warning after each
    failure and a 1-second sleep between attempts, and then
    [RuntimeError(path)] is raised from the fifth failure; a failing
    [shutil.rmtree] in [delete_directory_if_exists] is attempted once and
    its exception propagates at once. *)
Theorem delete_retry_policy path w e0 e1 e2 e3 e4 rest dpath wd e rest'
    (Hfile : lookup path w = Some File)
    (Hfaults : faults w = [Some e0; Some e1; Some e2; Some e3; Some e4] ++ rest)
    (Hcaught : Forall (fun e => catches_os_or_value e = true) [e0; e1; e2; e3; e4])
    (Hdir : lookup dpath wd = Some Dir)
    (Hdfault : faults wd = Some e :: rest') :
  delete_file_if_exists path w =
    ({| fs := fs w; faults := rest;
        trace := trace w ++
          [ERemove path; EWarnDelete 0 path; ESleep 1;
           ERemove path; EWarnDelete 1 path; ESleep 1;
           ERemove path; EWarnDelete 2 path; ESleep 1;
           ERemove path; EWarnDelete 3 path; ESleep 1;
           ERemove path; EWarnDelete 4 path] |},
     inl (RuntimeError path e4)) /\
  delete_directory_if_exists dpath wd =
    ({| fs := fs wd; faults := rest'; trace := trace wd ++ [ERmtree dpath] |}, inl e).
Proof.
  inversion Hcaught as [|? ? C0 Hc1]; inversion Hc1 as [|? ? C1 Hc2];
  inversion Hc2 as [|? ? C2 Hc3]; inversion Hc3 as [|? ? C3 Hc4];
  inversion Hc4 as [|? ? C4 _]; subst.
  split.
  - unfold delete_file_if_exists, os_path_exists, os_path_isfile.
    rewrite Hfile; simpl.
    unfold os_remove, next_fault; rewrite Hfaults; simpl.
    rewrite C0, C1, C2, C3, C4; simpl; unfold log; simpl.
    rewrite <- !app_assoc; reflexivity.
  - unfold delete_directory_if_exists, os_path_exists, os_path_isdir.
    rewrite Hdir; simpl.
    unfold shutil_rmtree, next_fault; rewrite Hdfault; simpl.
    destruct (is_oserror e); reflexivity.
Qed.

(** C9: on a path that does not exist, [delete_file_if_exists] changes
    nothing (no removal attempt, no trace event, no error); and a call that
    returns normally leaves a world on which a second call is such a no-op. *)
Theorem delete_file_missing_noop path w (Hnone : lookup path w = None) :
  delete_file_if_exists path w = (w, inr tt) /\
  forall w0 w1, delete_file_if_exists path w0 = (w1, inr tt) ->
    delete_file_if_exists path w1 = (w1, inr tt).
Proof.
  split.
  - unfold delete_file_if_exists, os_path_exists; rewrite Hnone; reflexivity.
  - intros w0 w1 H; unfold delete_file_if_exists in *.
    destruct (os_path_exists path w0 && os_path_isfile path w0) eqn:E.
    + apply delete_loop_removes in H; [|simpl; tauto].
      unfold os_path_exists; rewrite H; reflexivity.
    + injection H as <-; rewrite E; reflexivity.
Qed.

(** ** Witnesses: the theorems with hypotheses, at concrete inputs *)
Local Open Scope Z_scope.

(** C1 witness: three examples of true lengths 3, 8 and 5 (80 frequency
    bins), default configuration: all three report the same length. *)
Lemma conv_layers_seq_length_broadcast_witness :
  let c := conv_layers [NInput] 0 (Some 1) default_filters default_kernel_sizes
             default_strides true (1 # 10)%Q in
  let feed := batch_shape [3; 8; 5] 80 1 in
  c = (fst c, inr (10%nat, 11%nat)) /\
  exists vals, run (fst c) feed = Some vals /\
    exists t w,
      nth_error vals 10 = Some (VShape [Z.of_nat (length [3; 8; 5]); t; w]) /\
      nth_error vals 11 = Some (VInts (repeat t (length [3; 8; 5]))).
Proof.
  intros c feed.
  assert (Hc : c = (fst c, inr (10%nat, 11%nat))) by reflexivity.
  split; [exact Hc|].
  remember (run (fst c) feed) as r eqn:Hr.
  destruct r as [vals|]; [|vm_compute in Hr; discriminate].
  exists vals; split; [reflexivity|].
  exact (conv_layers_seq_length_broadcast _ _ _ _ _ _ [3; 8; 5] 80 1 (fst c) 10 11 vals
           Hc (eq_sym Hr)).
Defined.

(** C4 witness: a batch [[2; 8; 40; 1]] (40 frequency bins) with the default
    configuration. *)
Lemma conv_layers_reshape_width_witness :
  let c := conv_layers [NInput] 0 (Some 1) default_filters default_kernel_sizes
             default_strides true (1 # 10)%Q in
  c = (fst c, inr (10%nat, 11%nat)) /\
  exists vals, run (fst c) [2; 8; 40; 1] = Some vals /\
    exists lf o T F,
      py_last default_filters = inr lf /\ 0 < lf /\ 0 < 2 /\
      T = fold_left same_out (map fst default_strides) 8 /\
      F = fold_left same_out (map snd default_strides) 40 /\
      nth_error (fst c) 10 = Some (NReshape o (10 * lf)) /\
      nth_error vals o = Some (VShape [2; T; F; lf]) /\
      (T * F) mod 10 = 0 /\
      nth_error vals 10 = Some (VShape [2; T * F / 10; 10 * lf]) /\
      (10 * lf = F * lf <-> F = 10) /\
      (default_filters = default_filters -> default_strides = default_strides -> 40 = 40 ->
         lf = 96 /\ F = 5 /\ T mod 2 = 0 /\
         nth_error vals 10 = Some (VShape [2; T / 2; 960])).
Proof.
  intros c.
  assert (Hc : c = (fst c, inr (10%nat, 11%nat))) by reflexivity.
  split; [exact Hc|].
  remember (run (fst c) [2; 8; 40; 1]) as r eqn:Hr.
  destruct r as [vals|]; [|vm_compute in Hr; discriminate].
  exists vals; split; [reflexivity|].
  exact (conv_layers_reshape_width _ _ _ _ _ _ 2 8 40 1 (fst c) 10 11 vals
           Hc (eq_sym Hr)).
Defined.

(** C8 witness: a file whose removal fails five times with [OSError 13],
    and a directory whose [rmtree] fails with [OSError 39]. *)
Lemma delete_retry_policy_witness :
  let w := {| fs := [("ckpt/model.index"%string, File)];
              faults := repeat (Some (OSError 13)) 5; trace := [] |} in
  let wd := {| fs := [("ckpt"%string, Dir)]; faults := [Some (OSError 39)];
               trace := [] |} in
  lookup "ckpt/model.index" w = Some File /\
  faults w = [Some (OSError 13); Some (OSError 13); Some (OSError 13);
              Some (OSError 13); Some (OSError 13)] ++ [] /\
  Forall (fun e => catches_os_or_value e = true) (repeat (OSError 13) 5) /\
  lookup "ckpt" wd = Some Dir /\
  faults wd = Some (OSError 39) :: [] /\
  delete_file_if_exists "ckpt/model.index" w =
    ({| fs := fs w; faults := [];
        trace := trace w ++
          [ERemove "ckpt/model.index"; EWarnDelete 0 "ckpt/model.index"; ESleep 1;
           ERemove "ckpt/model.index"; EWarnDelete 1 "ckpt/model.index"; ESleep 1;
           ERemove "ckpt/model.index"; EWarnDelete 2 "ckpt/model.index"; ESleep 1;
           ERemove "ckpt/model.index"; EWarnDelete 3 "ckpt/model.index"; ESleep 1;
           ERemove "ckpt/model.index"; EWarnDelete 4 "ckpt/model.index"] |},
     inl (RuntimeError "ckpt/model.index" (OSError 13))) /\
  delete_directory_if_exists "ckpt" wd =
    ({| fs := fs wd; faults := []; trace := trace wd ++ [ERmtree "ckpt"] |},
     inl (OSError 39)).
Proof.
  intros w wd.
  assert (H1 : lookup "ckpt/model.index" w = Some File) by reflexivity.
  assert (H2 : faults w = [Some (OSError 13); Some (OSError 13); Some (OSError 13);
                           Some (OSError 13); Some (OSError 13)] ++ []) by reflexivity.
  assert (H3 : Forall (fun e => catches_os_or_value e = true) (repeat (OSError 13) 5))
    by (repeat constructor).
  assert (H4 : lookup "ckpt" wd = Some Dir) by reflexivity.
  assert (H5 : faults wd = Some (OSError 39) :: []) by reflexivity.
  do 5 (split; [assumption|]).
  exact (delete_retry_policy "ckpt/model.index" w _ _ _ _ _ [] "ckpt" wd _ []
           H1 H2 H3 H4 H5).
Defined.

(** C9 witness: deleting ["missing.txt"] when only ["a.txt"] exists. *)
Lemma delete_file_missing_noop_witness :
  let w := {| fs := [("a.txt"%string, File)]; faults := []; trace := [] |} in
  lookup "missing.txt" w = None /\
  delete_file_if_exists "missing.txt" w = (w, inr tt) /\
  forall w0 w1, delete_file_if_exists "missing.txt" w0 = (w1, inr tt) ->
    delete_file_if_exists "missing.txt" w1 = (w1, inr tt).
Proof.
  intros w.
  assert (H : lookup "missing.txt" w = None) by reflexivity.
  split; [exact H|].
  exact (delete_file_missing_noop "missing.txt" w H).
Defined.

Module DenseProofs.
Import TfContrib Dense.

Lemma drun_from_app vals feed g h :
  drun_from vals feed (g ++ h) =
  match drun_from vals feed g with Some v => drun_from v feed h | None => None end.
Proof.
  revert vals; induction g as [|n g IH]; intros vals; simpl; [reflexivity|].
  destruct (eval_dnode vals feed n); [apply IH | reflexivity].
Qed.

Lemma length_removelast_app {A} (d : list A) (u : A) :
  d <> [] -> length (removelast d ++ [u]) = length d.
Proof.
  intros Hd; rewrite (app_removelast_last u Hd) at 2.
  rewrite !length_app; reflexivity.
Qed.

(** One iteration of the loop: dense, minimum and dropout all produce the
    shape with its last axis set to [units]. *)
Lemma dense_step g feed vals o d tr u :
  drun g feed = Some vals -> length vals = length g ->
  nth_error vals o = Some (VShape d) -> (2 <= length d)%nat ->
  drun (((g ++ [DDense o u]) ++ [DMinimum (length g)])
          ++ [DDropout (length (g ++ [DDense o u])) tr]) feed =
  Some (vals ++ [VShape (removelast d ++ [u]); VShape (removelast d ++ [u]);
                 VShape (removelast d ++ [u])]).
Proof.
  intros Hr Hl Ho Hd. unfold drun in *.
  set (d1 := removelast d ++ [u]).
  assert (H1 : drun_from [] feed (g ++ [DDense o u]) = Some (vals ++ [VShape d1])).
  { rewrite drun_from_app, Hr; simpl; rewrite Ho.
    destruct (length d) as [|[|k]]; [lia|lia|reflexivity]. }
  assert (H2 : drun_from [] feed ((g ++ [DDense o u]) ++ [DMinimum (length g)])
               = Some ((vals ++ [VShape d1]) ++ [VShape d1])).
  { rewrite drun_from_app, H1; simpl.
    rewrite nth_error_app2, <- Hl, Nat.sub_diag by lia; reflexivity. }
  rewrite drun_from_app, H2; simpl.
  rewrite nth_error_app2 by (rewrite !length_app; simpl; lia).
  rewrite !length_app, <- Hl; simpl.
  replace (length vals + 1 - (length vals + 1))%nat with 0%nat by lia; simpl.
  rewrite <- !app_assoc; reflexivity.
Qed.

Lemma dense_builds_next ld u : dense_builds ld u = true -> dense_builds (Some u) u = true.
Proof.
  destruct ld as [d|]; simpl; [|discriminate].
  intros H; apply andb_prop in H as [_ H]; rewrite H; reflexivity.
Qed.

Lemma dense_loop_spec iters g o vals d feed ld tr u r :
  dense_builds ld u = true -> dropout_builds r tr = true ->
  drun g feed = Some vals -> length vals = length g ->
  nth_error vals o = Some (VShape d) -> (2 <= length d)%nat ->
  match dense_loop g o ld tr u r iters with
  | (g', inr o') =>
      length g' = (length g + 3 * length iters)%nat /\
      exists vals', drun g' feed = Some vals' /\
        nth_error vals' o' =
          Some (VShape (match iters with [] => d | _ => removelast d ++ [u] end))
  | (_, inl _) => False
  end.
Proof.
  revert g o vals d ld; induction iters as [|i rest IH];
    intros g o vals d ld Hb Hdr Hr Hl Ho Hd.
  - simpl; split; [lia|eauto].
  - simpl dense_loop; rewrite Hb, Hdr; simpl negb; cbv iota; unfold add_dnode.
    assert (Hne : d <> []) by (intros ->; simpl in Hd; lia).
    pose proof (dense_step g feed vals o d tr u Hr Hl Ho Hd) as Hs.
    specialize (IH _ (length ((g ++ [DDense o u]) ++ [DMinimum (length g)])) _
                   (removelast d ++ [u]) (Some u) (dense_builds_next _ _ Hb) Hdr Hs).
    destruct (dense_loop _ _ _ tr u r rest) as [g' [e|o']].
    + apply IH.
      * rewrite !length_app, Hl; simpl; lia.
      * rewrite nth_error_app2 by (rewrite !length_app; simpl; lia).
        rewrite !length_app, Hl; simpl.
        replace (length g + 1 + 1 - length g)%nat with 2%nat by lia; reflexivity.
      * rewrite length_removelast_app by exact Hne; exact Hd.
    + destruct IH as [IHl [vals' [IHr IHo]]].
      * rewrite !length_app, Hl; simpl; lia.
      * rewrite nth_error_app2 by (rewrite !length_app; simpl; lia).
        rewrite !length_app, Hl; simpl.
        replace (length g + 1 + 1 - length g)%nat with 2%nat by lia; reflexivity.
      * rewrite length_removelast_app by exact Hne; exact Hd.
      * split; [rewrite IHl, !length_app; simpl; lia|].
        exists vals'; split; [exact IHr|].
        rewrite IHo; destruct rest; [reflexivity|].
        rewrite removelast_last; reflexivity.
Qed.

End DenseProofs.
Import Dense DenseProofs.

(** [dense_layers] raises [ValueError] at build time when it has at least
    one layer and the first dense layer or its dropout is refused (unknown or
    negative input width, negative [num_units_dense], or a dropout rate
    outside [[0, 1)] when training).  When both pass, it appends three nodes
    (dense, minimum, dropout) per layer, and on an input of rank at least 2
    its output has the input's shape with the last axis replaced by
    [num_units_dense] when [num_layers >= 1], and is the input itself when
    [num_layers <= 0]. *)
Theorem dense_layers_shape last_dim training num_units_dense dense_dropout_rate
    num_layers feed
    (Hf : (2 <= length feed)%nat) :
  let (g, r) := dense_layers [DInput] 0 last_dim training num_units_dense
                  dense_dropout_rate num_layers in
  (dense_builds last_dim num_units_dense && dropout_builds dense_dropout_rate training
     = false -> 0 < num_layers -> r = inl ValueError) /\
  (dense_builds last_dim num_units_dense && dropout_builds dense_dropout_rate training
     = true ->
   exists out, r = inr out /\
   length g = (1 + 3 * Z.to_nat num_layers)%nat /\
   exists vals, drun g feed = Some vals /\
     nth_error vals out =
       Some (VShape (if (0 <? num_layers)%Z then removelast feed ++ [num_units_dense]
                     else feed))).
Proof.
  unfold dense_layers.
  destruct (dense_builds last_dim num_units_dense) eqn:Hb;
  destruct (dropout_builds dense_dropout_rate training) eqn:Hdr; simpl andb.
  2-4: destruct (Z.to_nat num_layers) as [|n] eqn:E; simpl;
    [split; [intros _ Hn; lia|intros H; discriminate]
    |rewrite Hb; try rewrite Hdr; simpl; split; [reflexivity|intros H; discriminate]].
  - pose proof (dense_loop_spec (seq 0 (Z.to_nat num_layers)) [DInput] 0
                  [VShape feed] feed feed last_dim training num_units_dense
                  dense_dropout_rate Hb Hdr eq_refl eq_refl eq_refl Hf) as H.
    destruct (dense_loop _ _ _ _ _ _ _) as [g [e|out]]; [contradiction|].
    destruct H as [Hl [vals [Hr Ho]]].
    split; [discriminate|intros _].
    exists out; split; [reflexivity|].
    split; [rewrite Hl, length_seq; reflexivity|].
    exists vals; split; [exact Hr|]; rewrite Ho.
    destruct (Z.ltb_spec 0 num_layers) as [Hn|Hn].
    + destruct (Z.to_nat num_layers) eqn:E; [lia|reflexivity].
    + replace (Z.to_nat num_layers) with 0%nat by lia; reflexivity.
Qed.


(** The tensor that [conv_layers] reshapes has the batch axis of the input,
    a time axis and a frequency axis each reduced layer by layer with the
    ['SAME'] size [ceil(n / s)] for that layer's stride on the axis, and
    [filters[-1]] channels. *)
Theorem conv_layers_stride_reduction ch filters kernel_sizes strides training rate
    b t f c g out sl vals
    (Hc : conv_layers [NInput] 0 ch filters kernel_sizes strides training rate
          = (g, inr (out, sl)))
    (Hr : run g [b; t; f; c] = Some vals) :
  exists lf o,
    py_last filters = inr lf /\
    nth_error g out = Some (NReshape o (10 * lf)) /\
    nth_error vals o =
      Some (VShape [b; fold_left same_out (map fst strides) t;
                    fold_left same_out (map snd strides) f; lf]).
Proof. exact (conv_pre_reshape _ _ _ _ _ _ _ _ _ _ _ _ (conv_layers_checked _ _ _ _ _ _ _ _ _ _ Hc) Hr). Qed.

(** When the strides bring the frequency axis down to exactly 10 bins, the
    reshape keeps the reduced time axis as it is, and [seq_length] gives
    every example the reduced size of the longest example's time axis. *)
Theorem conv_layers_seq_length_reduced ch filters kernel_sizes strides training rate
    lens freq channels g out sl vals
    (Hc : conv_layers [NInput] 0 ch filters kernel_sizes strides training rate
          = (g, inr (out, sl)))
    (Hr : run g (batch_shape lens freq channels) = Some vals)
    (Hf : fold_left same_out (map snd strides) freq = 10) :
  nth_error vals sl =
    Some (VInts (repeat (fold_left same_out (map fst strides) (fold_right Z.max 0 lens))
                        (length lens))).
Proof.
  apply conv_layers_checked in Hc; unfold batch_shape in Hr.
  destruct (conv_run_out _ _ _ _ _ _ _ _ _ _ _ _ Hc Hr)
    as (lf & T & F & _ & -> & -> & _ & _ & _ & _ & Hsl).
  rewrite Hf, Z.div_mul, Nat2Z.id in Hsl by lia; exact Hsl.
Qed.

Lemma conv_layers_stride_reduction_witness :
  let c := conv_layers [NInput] 0 (Some 1) default_filters default_kernel_sizes
             default_strides true (1 # 10)%Q in
  c = (fst c, inr (10%nat, 11%nat)) /\
  exists vals, run (fst c) [2; 6; 80; 1] = Some vals /\
    exists lf o,
      py_last default_filters = inr lf /\
      nth_error (fst c) 10 = Some (NReshape o (10 * lf)) /\
      nth_error vals o =
        Some (VShape [2; fold_left same_out (map fst default_strides) 6;
                      fold_left same_out (map snd default_strides) 80; lf]).
Proof.
  intros c.
  assert (Hc : c = (fst c, inr (10%nat, 11%nat))) by reflexivity.
  split; [exact Hc|].
  remember (run (fst c) [2; 6; 80; 1]) as r eqn:Hr.
  destruct r as [vals|]; [|vm_compute in Hr; discriminate].
  exists vals; split; [reflexivity|].
  exact (conv_layers_stride_reduction _ _ _ _ _ _ 2 6 80 1 (fst c) 10 11 vals
           Hc (eq_sym Hr)).
Defined.

Lemma conv_layers_seq_length_reduced_witness :
  let c := conv_layers [NInput] 0 (Some 1) default_filters default_kernel_sizes
             default_strides true (1 # 10)%Q in
  c = (fst c, inr (10%nat, 11%nat)) /\
  fold_left same_out (map snd default_strides) 80 = 10 /\
  exists vals, run (fst c) (batch_shape [3; 8; 5] 80 1) = Some vals /\
    nth_error vals 11 =
      Some (VInts (repeat (fold_left same_out (map fst default_strides)
                             (fold_right Z.max 0 [3; 8; 5])) (length [3; 8; 5]))).
Proof.
  intros c.
  assert (Hc : c = (fst c, inr (10%nat, 11%nat))) by reflexivity.
  assert (Hf : fold_left same_out (map snd default_strides) 80 = 10) by reflexivity.
  split; [exact Hc|split; [exact Hf|]].
  remember (run (fst c) (batch_shape [3; 8; 5] 80 1)) as r eqn:Hr.
  destruct r as [vals|]; [|vm_compute in Hr; discriminate].
  exists vals; split; [reflexivity|].
  exact (conv_layers_seq_length_reduced _ _ _ _ _ _ [3; 8; 5] 80 1 (fst c) 10 11 vals
           Hc (eq_sym Hr) Hf).
Defined.

Lemma dense_layers_shape_witness :
  (2 <= length [4; 7; 960])%nat /\
  let (g, r) := dense_layers [DInput] 0 (Some 960) true 2048 (1 # 10)%Q 3 in
  (dense_builds (Some 960) 2048 && dropout_builds (1 # 10)%Q true = false ->
     0 < 3 -> r = inl ValueError) /\
  (dense_builds (Some 960) 2048 && dropout_builds (1 # 10)%Q true = true ->
   exists out, r = inr out /\
   length g = (1 + 3 * Z.to_nat 3)%nat /\
   exists vals, drun g [4; 7; 960] = Some vals /\
     nth_error vals out =
       Some (VShape (if (0 <? 3)%Z then removelast [4; 7; 960] ++ [2048]
                     else [4; 7; 960]))).
Proof.
  assert (Hf : (2 <= length [4; 7; 960])%nat) by (simpl; lia).
  split; [exact Hf|].
  exact (dense_layers_shape (Some 960) true 2048 (1 # 10)%Q 3 [4; 7; 960] Hf).
Defined.

Module StorageLoopProofs.
Import Storage.

Lemma lookup_filter (f : string * kind -> bool) (P : string -> bool) q l :
  (forall e, f e = P (fst e)) ->
  option_map snd (find (fun e => String.eqb (fst e) q) (filter f l)) =
  if P q then option_map snd (find (fun e => String.eqb (fst e) q) l) else None.
Proof.
  intros Hf; induction l as [|[k v] l IH]; simpl.
  - destruct (P q); reflexivity.
  - rewrite Hf; simpl.
    destruct (String.eqb_spec k q) as [->|Hne].
    + destruct (P q); simpl; [rewrite String.eqb_refl; reflexivity|exact IH].
    + destruct (P k); simpl; [|exact IH].
      destruct (String.eqb_spec k q); [contradiction|exact IH].
Qed.

Lemma os_remove_cases p w w1 r :
  os_remove p w = (w1, r) ->
  trace w1 = trace w ++ [ERemove p] /\
  match r with
  | inl e => fs w1 = fs w /\ hd None (faults w) = Some e
  | inr _ => fs w1 = filter (fun e => negb (String.eqb (fst e) p)) (fs w)
  end.
Proof.
  unfold os_remove, next_fault.
  destruct (faults w) as [|[e|] rest]; simpl; intros H; injection H as <- <-;
    simpl; auto.
Qed.

Lemma delete_loop_recovers path es rest j n w :
  (length es < n)%nat -> (j + length es <= 4)%nat ->
  faults w = map Some es ++ None :: rest ->
  Forall (fun e => catches_os_or_value e = true) es ->
  delete_loop path (seq j n) w =
    ({| fs := filter (fun e => negb (String.eqb (fst e) path)) (fs w);
        faults := rest;
        trace := trace w ++
          flat_map (fun i => [ERemove path; EWarnDelete i path; ESleep 1])
                   (seq j (length es)) ++ [ERemove path] |}, inr tt).
Proof.
  revert j n w; induction es as [|e es IH]; intros j [|n] w Hn Hj Hf Hc;
    simpl in Hn, Hj; try lia.
  - simpl; unfold os_remove, next_fault; rewrite Hf; reflexivity.
  - inversion Hc as [|? ? He Hc']; subst.
    simpl; unfold os_remove at 1, next_fault at 1; rewrite Hf; simpl.
    rewrite He; destruct (Nat.eqb_spec j 4); [lia|].
    rewrite (IH (S j) n); simpl in *; try lia; try reflexivity; try assumption.
    unfold log; simpl; rewrite <- !app_assoc; reflexivity.
Qed.

Lemma delete_loop_effect path is : forall w w1 r,
  delete_loop path is w = (w1, r) ->
  (fs w1 = fs w \/ fs w1 = filter (fun e => negb (String.eqb (fst e) path)) (fs w)) /\
  exists t, trace w1 = trace w ++ t /\ (length (filter is_remove t) <= length is)%nat.
Proof.
  induction is as [|i rest IH]; intros w w1 r H; simpl in H.
  - injection H as <- _; split; [left; reflexivity|].
    exists []; rewrite app_nil_r; simpl; split; [reflexivity|lia].
  - destruct (os_remove path w) as [w0 [e|u]] eqn:R;
      destruct (os_remove_cases _ _ _ _ R) as [Ht Hfs].
    + destruct Hfs as [Hfs _].
      destruct (catches_os_or_value e).
      * destruct (Nat.eqb i 4).
        -- injection H as <- _; simpl; split; [left; exact Hfs|].
           exists [ERemove path; EWarnDelete i path]; split; simpl; [|lia].
           rewrite Ht, <- app_assoc; reflexivity.
        -- destruct (IH _ _ _ H) as [Hfs' [t [Ht' Hc]]]; simpl in Hfs', Ht'.
           split; [rewrite Hfs in Hfs'; exact Hfs'|].
           exists ([ERemove path; EWarnDelete i path; ESleep 1] ++ t); split.
           ++ rewrite Ht', Ht, <- !app_assoc; reflexivity.
           ++ simpl; lia.
      * injection H as <- _; split; [left; exact Hfs|].
        exists [ERemove path]; split; [exact Ht|simpl; lia].
    + injection H as <- _; split; [right; exact Hfs|].
      exists [ERemove path]; split; [exact Ht|simpl; lia].
Qed.

End StorageLoopProofs.
Import StorageLoopProofs.

Import Storage.

(** [delete_file_if_exists] on an existing file whose removal first fails
    [k < 5] times with [OSError] or [ValueError] and then succeeds: one
    warning and a 1-second sleep after each failure, then the file is gone
    and nothing is raised. *)
Theorem delete_file_recovers path w es rest
    (Hfile : lookup path w = Some File)
    (Hk : (length es < 5)%nat)
    (Hfaults : faults w = map Some es ++ None :: rest)
    (Hcaught : Forall (fun e => catches_os_or_value e = true) es) :
  delete_file_if_exists path w =
    ({| fs := filter (fun e => negb (String.eqb (fst e) path)) (fs w);
        faults := rest;
        trace := trace w ++
          flat_map (fun i => [ERemove path; EWarnDelete i path; ESleep 1])
                   (seq 0 (length es)) ++ [ERemove path] |}, inr tt).
Proof.
  unfold delete_file_if_exists, os_path_exists, os_path_isfile; rewrite Hfile.
  apply delete_loop_recovers; simpl; try lia; assumption.
Qed.

Lemma delete_file_recovers_witness :
  let w := {| fs := [("a.txt"%string, File); ("b"%string, Dir)];
              faults := [Some (OSError 13); Some ValueError; None]; trace := [] |} in
  lookup "a.txt" w = Some File /\ (length [OSError 13; ValueError] < 5)%nat /\
  faults w = map Some [OSError 13; ValueError] ++ [None] /\
  Forall (fun e => catches_os_or_value e = true) [OSError 13; ValueError] /\
  delete_file_if_exists "a.txt" w =
    ({| fs := filter (fun e => negb (String.eqb (fst e) "a.txt")) (fs w);
        faults := [];
        trace := trace w ++
          flat_map (fun i => [ERemove "a.txt"; EWarnDelete i "a.txt"; ESleep 1])
                   (seq 0 (length [OSError 13; ValueError])) ++ [ERemove "a.txt"] |}, inr tt).
Proof.
  intros w.
  assert (H1 : lookup "a.txt" w = Some File) by reflexivity.
  assert (H2 : (length [OSError 13; ValueError] < 5)%nat) by (simpl; lia).
  assert (H3 : faults w = map Some [OSError 13; ValueError] ++ [None]) by reflexivity.
  assert (H4 : Forall (fun e => catches_os_or_value e = true) [OSError 13; ValueError])
    by (repeat constructor).
  split; [exact H1|split; [exact H2|split; [exact H3|split; [exact H4|]]]].
  exact (delete_file_recovers "a.txt" w [OSError 13; ValueError] [] H1 H2 H3 H4).
Defined.

(** An exception other than [OSError] and [ValueError] from [os.remove] is
    not retried: it propagates after the first attempt, with no warning and
    no sleep. *)
Theorem delete_file_uncaught path w e rest
    (Hfile : lookup path w = Some File)
    (Hfaults : faults w = Some e :: rest)
    (Hu : catches_os_or_value e = false) :
  delete_file_if_exists path w =
    ({| fs := fs w; faults := rest; trace := trace w ++ [ERemove path] |}, inl e).
Proof.
  unfold delete_file_if_exists, os_path_exists, os_path_isfile; rewrite Hfile; simpl.
  unfold os_remove, next_fault; rewrite Hfaults; simpl; rewrite Hu; reflexivity.
Qed.

Lemma delete_file_uncaught_witness :
  let w := {| fs := [("a.txt"%string, File)];
              faults := [Some (OtherExn "KeyboardInterrupt")]; trace := [] |} in
  lookup "a.txt" w = Some File /\
  faults w = [Some (OtherExn "KeyboardInterrupt")] /\
  catches_os_or_value (OtherExn "KeyboardInterrupt") = false /\
  delete_file_if_exists "a.txt" w =
    ({| fs := fs w; faults := []; trace := trace w ++ [ERemove "a.txt"] |},
     inl (OtherExn "KeyboardInterrupt")).
Proof.
  intros w.
  assert (H1 : lookup "a.txt" w = Some File) by reflexivity.
  assert (H2 : faults w = [Some (OtherExn "KeyboardInterrupt")]) by reflexivity.
  assert (H3 : catches_os_or_value (OtherExn "KeyboardInterrupt") = false) by reflexivity.
  split; [exact H1|split; [exact H2|split; [exact H3|]]].
  exact (delete_file_uncaught "a.txt" w _ [] H1 H2 H3).
Defined.

(** Whatever the failures, [delete_file_if_exists path] never changes an
    entry other than [path], either leaves the file system as it was or
    removes exactly [path], and calls [os.remove] at most five times. *)
Theorem delete_file_if_exists_effect path w :
  let (w1, r) := delete_file_if_exists path w in
  (fs w1 = fs w \/ fs w1 = filter (fun e => negb (String.eqb (fst e) path)) (fs w)) /\
  (forall q, q <> path -> lookup q w1 = lookup q w) /\
  exists t, trace w1 = trace w ++ t /\ (length (filter is_remove t) <= 5)%nat.
Proof.
  destruct (delete_file_if_exists path w) as [w1 r] eqn:E.
  assert (Hfs : (fs w1 = fs w \/
                 fs w1 = filter (fun e => negb (String.eqb (fst e) path)) (fs w)) /\
                exists t, trace w1 = trace w ++ t /\ (length (filter is_remove t) <= 5)%nat).
  { unfold delete_file_if_exists in E.
    destruct (os_path_exists path w && os_path_isfile path w).
    - exact (delete_loop_effect _ _ _ _ _ E).
    - injection E as <- _; split; [left; reflexivity|].
      exists []; rewrite app_nil_r; split; [reflexivity|simpl; lia]. }
  destruct Hfs as [Hfs Ht]; split; [exact Hfs|split; [|exact Ht]].
  intros q Hq; unfold lookup; destruct Hfs as [-> | ->]; [reflexivity|].
  rewrite (lookup_filter _ (fun k => negb (String.eqb k path))) by reflexivity.
  destruct (String.eqb_spec q path); [contradiction|reflexivity].
Qed.

Module GfileProofs.
Import Storage Gfile StorageLoopProofs.
Local Open Scope nat_scope.

Lemma existsb_eqb_In q l : existsb (String.eqb q) l = true <-> In q l.
Proof.
  rewrite existsb_exists; split.
  - intros [x [Hx E]]; apply String.eqb_eq in E; subst; exact Hx.
  - intros Hq; exists q; split; [exact Hq|apply String.eqb_refl].
Qed.

Lemma find_app_dirs q l L :
  option_map snd (find (fun e => String.eqb (fst e) q) (l ++ map (fun d => (d, Dir)) L)) =
  match option_map snd (find (fun e => String.eqb (fst e) q) l) with
  | Some k => Some k
  | None => if existsb (String.eqb q) L then Some Dir else None
  end.
Proof.
  induction l as [|[k v] l IH]; simpl.
  - induction L as [|d L IHL]; simpl; [reflexivity|].
    rewrite String.eqb_sym; destruct (String.eqb q d); [reflexivity|exact IHL].
  - destruct (String.eqb k q); [reflexivity|exact IH].
Qed.

Lemma prefix_length s1 s2 : String.prefix s1 s2 = true -> String.length s1 <= String.length s2.
Proof.
  revert s2; induction s1 as [|a s1 IH]; intros [|b s2]; simpl; try lia; try discriminate.
  destruct (Ascii.ascii_dec a b); [|discriminate].
  intros H; specialize (IH s2 H); lia.
Qed.

Lemma length_append_str s1 s2 :
  String.length (String.append s1 s2) = String.length s1 + String.length s2.
Proof. induction s1 as [|a s1 IH]; simpl; [reflexivity|rewrite IH; reflexivity]. Qed.

Lemma ancestors_shorter acc s d :
  In d (ancestors_from acc s) -> String.length d < String.length acc + String.length s.
Proof.
  revert acc; induction s as [|c s IH]; intros acc H; simpl in H; [destruct H|].
  assert (L : String.length (String.append acc (String c EmptyString)) = S (String.length acc))
    by (rewrite length_append_str; simpl; lia).
  simpl; destruct (Ascii.eqb c "/"%char).
  - apply in_app_or in H as [H|H].
    + destruct (String.eqb acc ""); [destruct H|].
      destruct H as [<-|[]]; lia.
    + specialize (IH _ H); lia.
  - specialize (IH _ H); lia.
Qed.

(** A path below [p], or [p] itself, among the directories that
    [MakeDirs p] creates, is [p]. *)
Lemma under_dirs_to_make p q :
  under p q = true -> In q (dirs_to_make p) -> q = p.
Proof.
  unfold under, dirs_to_make; intros Hu Hin.
  apply in_app_or in Hin as [Hin|[->|[]]]; [|reflexivity].
  apply ancestors_shorter in Hin; simpl in Hin.
  apply orb_true_iff in Hu as [Hu|Hu]; [apply String.eqb_eq; exact Hu|].
  apply prefix_length in Hu; rewrite length_append_str in Hu; simpl in Hu; lia.
Qed.

Lemma delete_recursively_ok p w :
  hd None (gfaults w) = None ->
  exists w1, gfile_delete_recursively p w = (w1, inr tt) /\
    gtrace w1 = gtrace w ++ [GDeleteRecursively p] /\
    gfaults w1 = tl (gfaults w) /\
    forall q, glookup q w1 = if under p q then None else glookup q w.
Proof.
  intros Hok; unfold gfile_delete_recursively, gnext_fault.
  destruct (gfaults w) as [|[e|] rest] eqn:Ef; simpl in Hok; try discriminate;
    eexists; (split; [reflexivity|split; [reflexivity|split; [simpl; rewrite ?Ef; reflexivity|]]]);
    intros q; unfold glookup; simpl;
    rewrite (lookup_filter _ (fun k => negb (under p k))) by reflexivity;
    destruct (under p q); reflexivity.
Qed.

Lemma make_dirs_ok p w :
  hd None (gfaults w) = None ->
  (forall d, In d (dirs_to_make p) -> glookup d w <> Some File) ->
  exists w1, gfile_make_dirs p w = (w1, inr tt) /\
    gtrace w1 = gtrace w ++ [GMakeDirs p] /\
    forall q, glookup q w1 =
      match glookup q w with
      | Some k => Some k
      | None => if existsb (String.eqb q) (dirs_to_make p) then Some Dir else None
      end.
Proof.
  intros Hok Hd; unfold gfile_make_dirs.
  assert (E : exists w1, gnext_fault w = (None, w1) /\ gfs w1 = gfs w /\
                         gtrace w1 = gtrace w).
  { unfold gnext_fault; destruct (gfaults w) as [|[e|] rest]; simpl in Hok;
      try discriminate; eexists; (split; [reflexivity|split; reflexivity]). }
  destruct E as [w1 [E [Hfs Htr]]]; rewrite E.
  assert (Hl2 : forall d, glookup d (glog (GMakeDirs p) w1) = glookup d w)
    by (intros d; unfold glookup, glog; simpl; rewrite Hfs; reflexivity).
  destruct (existsb (fun d => match glookup d (glog (GMakeDirs p) w1) with
                              | Some File => true | _ => false end) (dirs_to_make p)) eqn:Ex.
  - apply existsb_exists in Ex as [d [Hin Hf]]; rewrite Hl2 in Hf.
    exfalso; apply (Hd d Hin); destruct (glookup d w) as [[|]|]; congruence.
  - eexists; split; [reflexivity|split].
    + simpl; rewrite Htr; reflexivity.
    + intros q; unfold glookup at 1; simpl; rewrite find_app_dirs.
      change (option_map snd (find (fun e => String.eqb (fst e) q) (gfs w1)))
        with (glookup q (glog (GMakeDirs p) w1)).
      rewrite Hl2; destruct (glookup q w) as [k|] eqn:Gq; [reflexivity|].
      replace (existsb (String.eqb q) (filter _ _))
        with (existsb (String.eqb q) (dirs_to_make p)); [reflexivity|].
      apply Bool.eq_iff_eq_true; rewrite !existsb_eqb_In, filter_In, nodup_In, Hl2, Gq.
      tauto.
Qed.

End GfileProofs.

Import Gfile GfileProofs.

Lemma glookup_glog q e w : glookup q (glog e w) = glookup q w.
Proof. reflexivity. Qed.

(** [maybe_delete_checkpoints path True] on an existing checkpoint
    directory, when [DeleteRecursively] and [MakeDirs] succeed and no
    ancestor of [path] is a file: [path] ends as an empty directory, and
    every entry outside it that existed is kept. *)
Theorem maybe_delete_checkpoints_emptied path w
    (Hex : glookup path w <> None)
    (Hok1 : hd None (gfaults w) = None)
    (Hok2 : hd None (tl (gfaults w)) = None)
    (Hanc : forall d, In d (ancestors_from "" path) -> glookup d w <> Some File) :
  exists w1,
    maybe_delete_checkpoints path true w = (w1, inr tt) /\
    gtrace w1 = gtrace w ++ [GPrint ("Deleting old checkpoint data from: " ++ path)%string;
                             GDeleteRecursively path; GMakeDirs path] /\
    (forall q, under path q = true ->
       glookup q w1 = if String.eqb q path then Some Dir else None) /\
    (forall q, under path q = false -> glookup q w <> None -> glookup q w1 = glookup q w).
Proof.
  unfold maybe_delete_checkpoints, gfile_exists.
  destruct (glookup path w) as [k|] eqn:G; [|contradiction]; cbv [andb].
  set (w0 := glog (GPrint ("Deleting old checkpoint data from: " ++ path)%string) w).
  destruct (delete_recursively_ok path w0 Hok1) as [w1 [D [Ht1 [Hf1 Hl1]]]].
  rewrite D.
  assert (Hd : forall d, In d (dirs_to_make path) -> glookup d w1 <> Some File).
  { intros d Hin; rewrite Hl1; unfold w0; rewrite glookup_glog.
    destruct (under path d) eqn:U; [discriminate|].
    unfold dirs_to_make in Hin; apply in_app_or in Hin as [Hin|[<-|[]]].
    - exact (Hanc d Hin).
    - unfold under in U; rewrite String.eqb_refl in U; discriminate. }
  assert (Hok1' : hd None (gfaults w1) = None) by (rewrite Hf1; exact Hok2).
  destruct (make_dirs_ok path w1 Hok1' Hd) as [w2 [M [Ht2 Hl2]]].
  exists w2; split; [exact M|split; [|split]].
  - rewrite Ht2, Ht1; unfold w0, glog; simpl; rewrite <- !app_assoc; reflexivity.
  - intros q U; rewrite Hl2, Hl1, U.
    destruct (String.eqb_spec q path) as [->|Hne].
    + replace (existsb (String.eqb path) (dirs_to_make path)) with true; [reflexivity|].
      symmetry; apply existsb_eqb_In; unfold dirs_to_make; apply in_or_app; right; left;
        reflexivity.
    + destruct (existsb (String.eqb q) (dirs_to_make path)) eqn:Ex; [|reflexivity].
      apply existsb_eqb_In in Ex; apply under_dirs_to_make in Ex; [contradiction|exact U].
  - intros q U Hq; rewrite Hl2, Hl1, U; unfold w0; rewrite glookup_glog.
    destruct (glookup q w); [reflexivity|contradiction].
Qed.

Lemma maybe_delete_checkpoints_emptied_witness :
  let w := {| gfs := [("out"%string, Dir); ("out/run1"%string, Dir);
                      ("out/run1/model.ckpt"%string, File); ("out/run10"%string, Dir)];
              gfaults := []; gtrace := [] |} in
  glookup "out/run1" w <> None /\ hd None (gfaults w) = None /\
  hd None (tl (gfaults w)) = None /\
  (forall d, In d (ancestors_from "" "out/run1") -> glookup d w <> Some File) /\
  exists w1,
    maybe_delete_checkpoints "out/run1" true w = (w1, inr tt) /\
    gtrace w1 = gtrace w ++ [GPrint ("Deleting old checkpoint data from: " ++ "out/run1")%string;
                             GDeleteRecursively "out/run1"; GMakeDirs "out/run1"] /\
    (forall q, under "out/run1" q = true ->
       glookup q w1 = if String.eqb q "out/run1" then Some Dir else None) /\
    (forall q, under "out/run1" q = false -> glookup q w <> None -> glookup q w1 = glookup q w).
Proof.
  intros w.
  assert (H1 : glookup "out/run1" w <> None) by discriminate.
  assert (H2 : hd None (gfaults w) = None) by reflexivity.
  assert (H3 : hd None (tl (gfaults w)) = None) by reflexivity.
  assert (H4 : forall d, In d (ancestors_from "" "out/run1") -> glookup d w <> Some File).
  { intros d Hd; simpl in Hd; destruct Hd as [<-|[]]; discriminate. }
  split; [exact H1|split; [exact H2|split; [exact H3|split; [exact H4|]]]].
  exact (maybe_delete_checkpoints_emptied "out/run1" w H1 H2 H3 H4).
Defined.

(** On a path that does not exist, whatever [delete] is,
    [maybe_delete_checkpoints] announces a new run and creates [path] as a
    directory (when [MakeDirs] succeeds and no ancestor is a file), keeping
    every existing entry. *)
Theorem maybe_delete_checkpoints_new_run path delete w
    (Hnew : glookup path w = None)
    (Hok : hd None (gfaults w) = None)
    (Hanc : forall d, In d (ancestors_from "" path) -> glookup d w <> Some File) :
  exists w1,
    maybe_delete_checkpoints path delete w = (w1, inr tt) /\
    gtrace w1 = gtrace w ++ [GPrint ("Starting a new training run in: " ++ path)%string;
                             GMakeDirs path] /\
    glookup path w1 = Some Dir /\
    (forall q, glookup q w <> None -> glookup q w1 = glookup q w).
Proof.
  unfold maybe_delete_checkpoints, gfile_exists; rewrite Hnew; simpl.
  set (w0 := glog (GPrint ("Starting a new training run in: " ++ path)%string) w).
  assert (Hd : forall d, In d (dirs_to_make path) -> glookup d w0 <> Some File).
  { intros d Hin; unfold w0; rewrite glookup_glog.
    unfold dirs_to_make in Hin; apply in_app_or in Hin as [Hin|[<-|[]]].
    - exact (Hanc d Hin).
    - rewrite Hnew; discriminate. }
  destruct (make_dirs_ok path w0 Hok Hd) as [w1 [M [Ht Hl]]].
  exists w1; split; [exact M|split; [|split]].
  - rewrite Ht; unfold w0, glog; simpl; rewrite <- app_assoc; reflexivity.
  - rewrite Hl; unfold w0; rewrite glookup_glog, Hnew.
    replace (existsb (String.eqb path) (dirs_to_make path)) with true; [reflexivity|].
    symmetry; apply existsb_eqb_In; unfold dirs_to_make; apply in_or_app; right; left;
      reflexivity.
  - intros q Hq; rewrite Hl; unfold w0; rewrite glookup_glog.
    destruct (glookup q w); [reflexivity|contradiction].
Qed.

Lemma maybe_delete_checkpoints_new_run_witness :
  let w := {| gfs := [("data"%string, Dir)]; gfaults := []; gtrace := [] |} in
  glookup "out/run" w = None /\ hd None (gfaults w) = None /\
  (forall d, In d (ancestors_from "" "out/run") -> glookup d w <> Some File) /\
  exists w1,
    maybe_delete_checkpoints "out/run" true w = (w1, inr tt) /\
    gtrace w1 = gtrace w ++ [GPrint ("Starting a new training run in: " ++ "out/run")%string;
                             GMakeDirs "out/run"] /\
    glookup "out/run" w1 = Some Dir /\
    (forall q, glookup q w <> None -> glookup q w1 = glookup q w).
Proof.
  intros w.
  assert (H1 : glookup "out/run" w = None) by reflexivity.
  assert (H2 : hd None (gfaults w) = None) by reflexivity.
  assert (H3 : forall d, In d (ancestors_from "" "out/run") -> glookup d w <> Some File).
  { intros d Hd; simpl in Hd; destruct Hd as [<-|[]]; discriminate. }
  split; [exact H1|split; [exact H2|split; [exact H3|]]].
  exact (maybe_delete_checkpoints_new_run "out/run" true w H1 H2 H3).
Defined.

Module GitProofs.
Import Storage.

Lemma py_last_snoc {A} (s : list A) x : py_last (s ++ [x]) = inr x.
Proof. unfold py_last; rewrite rev_app_distr; reflexivity. Qed.

Lemma insert_In y x l : In y (insert_by_key x l) <-> x = y \/ In y l.
Proof.
  induction l as [|z l IH]; simpl; [tauto|].
  destruct (snd x <? snd z)%Z; simpl; [tauto|rewrite IH; tauto].
Qed.

Lemma fold_insert_In y l acc :
  In y (fold_left (fun acc x => insert_by_key x acc) l acc) <-> In y l \/ In y acc.
Proof.
  revert acc; induction l as [|x l IH]; intros acc; simpl; [tauto|].
  rewrite IH, insert_In; tauto.
Qed.

Lemma sorted_by_key_snoc l x :
  sorted_by_key (l ++ [x]) = insert_by_key x (sorted_by_key l).
Proof. unfold sorted_by_key; rewrite fold_left_app; reflexivity. Qed.

(** Inserting a key below the current last one leaves that one last. *)
Lemma insert_lt_last x s z :
  (snd x < snd z)%Z -> exists s', insert_by_key x (s ++ [z]) = s' ++ [z].
Proof.
  intros Hlt; induction s as [|y s IH]; simpl.
  - apply Z.ltb_lt in Hlt; rewrite Hlt; exists [x]; reflexivity.
  - destruct (snd x <? snd y)%Z.
    + exists (x :: y :: s); reflexivity.
    + destruct IH as [s' ->]; exists (y :: s'); reflexivity.
Qed.

(** Inserting a key at least the maximum puts it last (ties stay stable). *)
Lemma insert_ge_last x s z :
  (forall y, In y s -> (snd y <= snd z)%Z) -> (snd z <= snd x)%Z ->
  insert_by_key x (s ++ [z]) = s ++ [z; x].
Proof.
  intros Hs Hz; induction s as [|y s IH]; simpl.
  - replace (snd x <? snd z)%Z with false by (symmetry; apply Z.ltb_ge; exact Hz).
    reflexivity.
  - assert (Hy : (snd y <= snd z)%Z) by (apply Hs; left; reflexivity).
    replace (snd x <? snd y)%Z with false by (symmetry; apply Z.ltb_ge; lia).
    rewrite IH; [reflexivity|intros y' H; apply Hs; right; exact H].
Qed.

(** The last element of the stable sort by date is the last-listed tag
    among those with the newest date. *)
Lemma sorted_by_key_last l :
  l <> [] ->
  exists s name d l1 l2,
    sorted_by_key l = s ++ [(name, d)] /\ l = l1 ++ (name, d) :: l2 /\
    (forall t, In t l1 -> (snd t <= d)%Z) /\ (forall t, In t l2 -> (snd t < d)%Z).
Proof.
  induction l as [|x l IH] using rev_ind; intros Hne; [contradiction|clear Hne].
  destruct x as [xn xd].
  destruct l as [|y l'] eqn:El.
  - exists [], xn, xd, [], []; repeat split; simpl; try tauto.
  - rewrite <- El in *.
    destruct IH as (s & n & d & l1 & l2 & Hs & Hl & H1 & H2); [subst l; discriminate|].
    rewrite sorted_by_key_snoc, Hs.
    destruct (Z.ltb_spec xd d) as [Hlt|Hge].
    + destruct (insert_lt_last (xn, xd) s (n, d) Hlt) as [s' ->].
      exists s', n, d, l1, (l2 ++ [(xn, xd)]); repeat split.
      * rewrite Hl, <- app_assoc; reflexivity.
      * exact H1.
      * intros t Ht; apply in_app_or in Ht as [Ht|[<-|[]]]; [exact (H2 t Ht)|exact Hlt].
    + assert (Hle : forall t, In t l -> (snd t <= d)%Z).
      { intros t Ht; rewrite Hl in Ht; apply in_app_or in Ht as [Ht|[<-|Ht]].
        - exact (H1 t Ht).
        - simpl; lia.
        - specialize (H2 t Ht); lia. }
      rewrite insert_ge_last.
      * exists (s ++ [(n, d)]), xn, xd, l, []; repeat split.
        -- rewrite <- app_assoc; reflexivity.
        -- intros t Ht; specialize (Hle t Ht); simpl; lia.
        -- intros t [].
      * intros t Ht; apply Hle.
        assert (Hin : In t (sorted_by_key l))
          by (rewrite Hs; apply in_or_app; left; exact Ht).
        unfold sorted_by_key in Hin; apply fold_insert_In in Hin as [Hin|[]]; exact Hin.
      * simpl; lia.
Qed.

End GitProofs.

Import GitProofs.

(** With at least one tag, [git_latest_tag] returns the name of a tag with
    the newest commit date; among several with that date, the stable sort
    makes it the last one listed. *)
Theorem git_latest_tag_newest r (Hne : repo_tags r <> []) :
  exists name d l1 l2,
    git_latest_tag r = inr name /\
    repo_tags r = l1 ++ (name, d) :: l2 /\
    (forall t, In t l1 -> snd t <= d) /\
    (forall t, In t l2 -> snd t < d).
Proof.
  destruct (sorted_by_key_last _ Hne) as (s & name & d & l1 & l2 & Hs & Hl & H1 & H2).
  exists name, d, l1, l2; split; [|split; [exact Hl|split; assumption]].
  unfold git_latest_tag; rewrite Hs, py_last_snoc; reflexivity.
Qed.

Lemma git_latest_tag_newest_witness :
  let r := {| head_branch := Some "master"%string;
              repo_tags := [("v0.1"%string, 10); ("v0.3"%string, 30);
                            ("v0.2"%string, 20); ("v0.4"%string, 30)] |} in
  repo_tags r <> [] /\
  exists name d l1 l2,
    git_latest_tag r = inr name /\
    repo_tags r = l1 ++ (name, d) :: l2 /\
    (forall t, In t l1 -> snd t <= d) /\
    (forall t, In t l2 -> snd t < d).
Proof.
  intros r.
  assert (H : repo_tags r <> []) by discriminate.
  split; [exact H|exact (git_latest_tag_newest r H)].
Defined.

Module Md5Proofs.
Import Md5.
Local Open Scope nat_scope.

Lemma chunks_nil fuel : chunks fuel [] = [].
Proof. destruct fuel; reflexivity. Qed.

Lemma chunks_step fuel rest :
  chunks (S fuel) rest =
    match firstn 4096 rest with
    | [] => []
    | _ => firstn 4096 rest :: chunks fuel (skipn 4096 rest)
    end.
Proof.
  change (chunks (S fuel) rest) with
    (let (chunk, rest') := read4096 rest in
     match chunk with [] => [] | _ => chunk :: chunks fuel rest' end).
  unfold read4096; destruct (firstn 4096 rest); reflexivity.
Qed.

Lemma firstn_pos_nil {A} n (l : list A) : 0 < n -> firstn n l = [] -> l = [].
Proof. destruct n, l; simpl; intros; try lia; try reflexivity; discriminate. Qed.

Lemma chunks_concat fuel rest :
  length rest < fuel -> concat (chunks fuel rest) = rest.
Proof.
  revert rest; induction fuel as [|fuel IH]; intros rest Hl; [lia|].
  rewrite chunks_step.
  remember 4096 as n eqn:En.
  assert (Hn : 0 < n) by (subst n; apply Nat.lt_0_succ).
  destruct (firstn n rest) as [|b c] eqn:E.
  - symmetry; exact (firstn_pos_nil _ _ Hn E).
  - change (concat ((b :: c) :: chunks fuel (skipn n rest)))
      with ((b :: c) ++ concat (chunks fuel (skipn n rest))).
    rewrite <- E, IH; [apply firstn_skipn|].
    rewrite length_skipn.
    destruct rest as [|x rest]; [destruct n; discriminate|].
    simpl length in *; lia.
Qed.

Lemma chunks_sizes fuel rest :
  (forall c, In c (chunks fuel rest) -> 1 <= length c <= 4096) /\
  (forall i c, nth_error (chunks fuel rest) i = Some c ->
     S i < length (chunks fuel rest) -> length c = 4096).
Proof.
  revert rest; induction fuel as [|fuel IH]; intros rest;
    [split; [intros c []|intros [|i] c Hc; discriminate]|].
  rewrite chunks_step.
  destruct (IH (skipn 4096 rest)) as [IH1 IH2].
  remember 4096 as n eqn:En.
  assert (Hn : 0 < n) by (subst n; apply Nat.lt_0_succ).
  destruct (firstn n rest) as [|b c0] eqn:E;
    [split; [intros c []|intros [|i] c Hc; discriminate]|].
  rewrite <- E.
  split.
  - intros c [<-|Hc]; [|exact (IH1 c Hc)].
    rewrite length_firstn.
    destruct rest as [|x rest]; [destruct n; discriminate|].
    simpl length; lia.
  - intros [|i] c Hc Hi.
    + injection Hc as <-.
      change (length (firstn n rest :: chunks fuel (skipn n rest)))
        with (S (length (chunks fuel (skipn n rest)))) in Hi.
      destruct (skipn n rest) as [|x r] eqn:Es;
        [rewrite chunks_nil in Hi; simpl in Hi; lia|].
      assert (Hs : length (skipn n rest) > 0) by (rewrite Es; simpl; lia).
      rewrite length_skipn in Hs; rewrite length_firstn; lia.
    + apply (IH2 i c Hc).
      change (length (firstn n rest :: chunks fuel (skipn n rest)))
        with (S (length (chunks fuel (skipn n rest)))) in Hi.
      lia.
Qed.

Section Streaming.
Context {H : Type} (new : H) (update : H -> list Byte.byte -> H).
Hypothesis update_app : forall h a b, update (update h a) b = update h (a ++ b).
Hypothesis update_nil : forall h, update h [] = h.

Lemma fold_update cs : forall h, fold_left update cs h = update h (concat cs).
Proof.
  induction cs as [|c cs IH]; intros h; simpl; [symmetry; apply update_nil|].
  rewrite IH, update_app; reflexivity.
Qed.

End Streaming.

End Md5Proofs.
Import Md5 Md5Proofs.

(** The chunked read loop of [md5] hands the hash every byte of the file,
    in order, in chunks of 1 to 4096 bytes, all of exactly 4096 bytes but
    the last. *)
Theorem md5_chunks content :
  let cs := chunks (S (length content)) content in
  concat cs = content /\
  (forall c, In c cs -> (1 <= length c <= 4096)%nat) /\
  (forall i c, nth_error cs i = Some c -> (S i < length cs)%nat -> length c = 4096%nat).
Proof.
  intros cs; split; [apply chunks_concat; lia|apply chunks_sizes].
Qed.

(** For a hash whose [update] only depends on the concatenation of what
    it is fed (as [hashlib.md5]), [md5(file_path)] is the digest of the
    whole file fed at once. *)
Theorem md5_streaming {H : Type} (md5_new : H) (md5_update : H -> list Byte.byte -> H)
    (md5_hexdigest : H -> string)
    (Happ : forall h a b, md5_update (md5_update h a) b = md5_update h (a ++ b))
    (Hnil : forall h, md5_update h [] = h)
    (content : list Byte.byte) :
  md5 md5_new md5_update md5_hexdigest content =
    md5_hexdigest (md5_update md5_new content).
Proof.
  unfold md5; rewrite (fold_update md5_update Happ Hnil), chunks_concat by lia.
  reflexivity.
Qed.

Lemma md5_streaming_witness :
  (forall h a b : list Byte.byte, (h ++ a) ++ b = h ++ (a ++ b)) /\
  (forall h : list Byte.byte, h ++ [] = h) /\
  md5 [] (@app Byte.byte) string_of_list_byte (repeat Byte.x61 5000) =
    string_of_list_byte ([] ++ repeat Byte.x61 5000).
Proof.
  assert (Happ : forall h a b : list Byte.byte, (h ++ a) ++ b = h ++ (a ++ b))
    by (intros; symmetry; apply app_assoc).
  assert (Hnil : forall h : list Byte.byte, h ++ [] = h) by (intros; apply app_nil_r).
  split; [exact Happ|split; [exact Hnil|]].
  exact (md5_streaming [] (@app Byte.byte) string_of_list_byte Happ Hnil
           (repeat Byte.x61 5000)).
Defined.

Module ParamsProofs.
Import ParamsHelper.

(** [data[key]] on an object: the last binding of [key], or [KeyError]
    when no binding has it. *)
Lemma subscript_obj kvs key :
  match subscript (JObj kvs) key with
  | inr v => exists pre post, kvs = pre ++ (key, v) :: post /\ ~ In key (map fst post)
  | inl e => e = KeyError key /\ ~ In key (map fst kvs)
  end.
Proof.
  unfold subscript.
  induction kvs as [|[k v] kvs IH] using rev_ind; simpl.
  - split; [reflexivity|tauto].
  - rewrite rev_app_distr; simpl.
    destruct (String.eqb_spec k key) as [->|Hne].
    + exists kvs, []; split; [reflexivity|simpl; tauto].
    + destruct (find (fun kv => String.eqb (fst kv) key) (rev kvs)) as [[k' v']|].
      * destruct IH as (pre & post & -> & Hp).
        exists pre, (post ++ [(k, v)]); split; [rewrite <- app_assoc; reflexivity|].
        rewrite map_app, in_app_iff; simpl; intuition.
      * destruct IH as [Hk Hn]; split; [exact Hk|].
        rewrite map_app, in_app_iff; simpl; intuition.
Qed.

End ParamsProofs.
Import ParamsHelper ParamsProofs.

(** Loading [corpus.json] whose top level is an object succeeds exactly when
    the four keys are present, each value being the key's last binding in
    the file; otherwise it raises [KeyError] for the first missing key in
    the order [train_size], [test_size], [dev_size], [boundaries]. *)
Theorem load_params_object kvs :
  match load_params (Some (Some (JObj kvs))) with
  | inr (train_size, test_size, dev_size, boundaries) =>
      Forall (fun kv =>
        exists pre post, kvs = pre ++ kv :: post /\ ~ In (fst kv) (map fst post))
        [("train_size"%string, train_size); ("test_size"%string, test_size);
         ("dev_size"%string, dev_size); ("boundaries"%string, boundaries)]
  | inl e =>
      exists ks1 k ks2,
        ["train_size"; "test_size"; "dev_size"; "boundaries"]%string = ks1 ++ k :: ks2 /\
        Forall (fun k' => In k' (map fst kvs)) ks1 /\
        ~ In k (map fst kvs) /\ e = KeyError k
  end.
Proof.
  assert (Hin : forall key v, subscript (JObj kvs) key = inr v -> In key (map fst kvs)).
  { intros key v E; pose proof (subscript_obj kvs key) as S; rewrite E in S.
    destruct S as (pre & post & -> & _).
    rewrite map_app, in_app_iff; simpl; tauto. }
  assert (Hlast : forall key v, subscript (JObj kvs) key = inr v ->
            exists pre post, kvs = pre ++ (key, v) :: post /\ ~ In key (map fst post)).
  { intros key v E; pose proof (subscript_obj kvs key) as S; rewrite E in S; exact S. }
  assert (Hmiss : forall key e, subscript (JObj kvs) key = inl e ->
            e = KeyError key /\ ~ In key (map fst kvs)).
  { intros key e E; pose proof (subscript_obj kvs key) as S; rewrite E in S; exact S. }
  unfold load_params.
  destruct (subscript (JObj kvs) "train_size") as [e|a] eqn:E1.
  { destruct (Hmiss _ _ E1) as [-> Hn].
    exists [], "train_size"%string, ["test_size"; "dev_size"; "boundaries"]%string.
    repeat split; auto. }
  destruct (subscript (JObj kvs) "test_size") as [e|b] eqn:E2.
  { destruct (Hmiss _ _ E2) as [-> Hn].
    exists ["train_size"]%string, "test_size"%string, ["dev_size"; "boundaries"]%string.
    repeat split; auto. repeat constructor; exact (Hin _ _ E1). }
  destruct (subscript (JObj kvs) "dev_size") as [e|c] eqn:E3.
  { destruct (Hmiss _ _ E3) as [-> Hn].
    exists ["train_size"; "test_size"]%string, "dev_size"%string, ["boundaries"]%string.
    repeat split; auto.
    repeat constructor; [exact (Hin _ _ E1)|exact (Hin _ _ E2)]. }
  destruct (subscript (JObj kvs) "boundaries") as [e|d] eqn:E4.
  { destruct (Hmiss _ _ E4) as [-> Hn].
    exists ["train_size"; "test_size"; "dev_size"]%string, "boundaries"%string, [].
    repeat split; auto.
    repeat constructor; [exact (Hin _ _ E1)|exact (Hin _ _ E2)|exact (Hin _ _ E3)]. }
  repeat constructor; simpl; [exact (Hlast _ _ E1)|exact (Hlast _ _ E2)
                             |exact (Hlast _ _ E3)|exact (Hlast _ _ E4)].
Qed.

